(** * css-select: the selector compiler (src/compile.ts)

    A shallow embedding of [compile.ts].  Selector tokens are the tagged
    union exported by css-what.  Compiled queries are JavaScript function
    objects: each is represented by the [function] expression that
    created it together with the values it captured, so that the identity
    tests of the source ([func === falseFunc], [a === trueFunc]) become
    tests on the head constructor.  The two boolbase functions are the
    only compiled queries that no [function] expression of this module
    creates.

    Compilation runs in a monad with a heap and exceptions.  The heap
    holds the one-slot arrays that [filters.has] allocates and that the
    compiled [has] closures write when they are called.

    [compile.ts] imports the weight table [procedure], the sorting pass
    [sortRules], the table of leaf builders [Rules] and css-what's
    [parse].  They are the fields of the class [Imports], over which
    every definition and theorem is generic. *)

From Stdlib Require Import ZArith List Bool Lia.
From stdpp Require Import base option list strings gmap.

#[local] Set Warnings "-register-all".

Local Open Scope string_scope.
Local Open Scope list_scope.

(** ** Selector tokens (css-what) *)

Inductive TraversalType : Type :=
| adjacent
| child
| descendant
| parent
| sibling.

(** [DataType = Selector[][] | null | string], the argument of a
    pseudo-class. *)
Inductive DataType (S : Type) : Type :=
| DataNull
| DataString (s : string)
| DataSelectors (d : list (list S)).

Arguments DataNull {S}.
Arguments DataString {S} s.
Arguments DataSelectors {S} d.

Inductive Selector : Type :=
| AttributeSelector (name action value : string) (ignoreCase : bool)
| PseudoSelector (name : string) (data : DataType Selector)
| PseudoElement (name : string)
| TagSelector (name : string)
| UniversalSelector
| Traversal (type : TraversalType)
| FlexibleDescendant.

Definition traversal_type (k : TraversalType) : string :=
  match k with
  | adjacent => "adjacent"
  | child => "child"
  | descendant => "descendant"
  | parent => "parent"
  | sibling => "sibling"
  end.

(** The [type] field of a token. *)
Definition type (t : Selector) : string :=
  match t with
  | AttributeSelector _ _ _ _ => "attribute"
  | PseudoSelector _ _ => "pseudo"
  | PseudoElement _ => "pseudo-element"
  | TagSelector _ => "tag"
  | UniversalSelector => "universal"
  | Traversal k => traversal_type k
  | FlexibleDescendant => "_flexibleDescendant"
  end.

(** [t.type === "pseudo" && t.name === "scope"]. *)
Definition isScopePseudo (t : Selector) : bool :=
  match t with
  | PseudoSelector name _ => String.eqb name "scope"
  | _ => false
  end.

Fixpoint includesScopePseudo (t : Selector) : bool :=
  match t with
  | PseudoSelector name data =>
      String.eqb name "scope" ||
      match data with
      | DataSelectors d => existsb (existsb includesScopePseudo) d
      | _ => false
      end
  | _ => false
  end.

Definition DESCENDANT_TOKEN : Selector := Traversal descendant.
Definition FLEXIBLE_DESCENDANT_TOKEN : Selector := FlexibleDescendant.
Definition SCOPE_TOKEN : Selector := PseudoSelector "scope" DataNull.

(** A [:scope] pseudo-class occurs in a group, at top level or inside the
    selector-list argument of a pseudo-class, at any depth.  This is the
    reading of the prose; [includesScopePseudo] is the code. *)
Inductive ScopeWithin : Selector -> Prop :=
| ScopeHere data : ScopeWithin (PseudoSelector "scope" data)
| ScopeNested name d g t :
    In g d -> In t g -> ScopeWithin t ->
    ScopeWithin (PseudoSelector name (DataSelectors d)).

Definition ScopeInGroup (g : list Selector) : Prop :=
  exists t, In t g /\ ScopeWithin t.

(** The group's second node, right after a leading [:scope], is a
    sibling or adjacent traversal. *)
Definition siblingAfterScope (rules : list Selector) : Prop :=
  exists first second rest,
    rules = first :: second :: rest /\ isScopePseudo first = true /\
    (type second = "adjacent" \/ type second = "sibling").

(** ** Run-time values, the heap of [:has] slots, the adapter *)

Section Model.

Context {Elem : Type} {ExtCode : Type}.

(** What a context, or a member of a context array, can be: a node of the
    adapter's tree, the module's [PLACEHOLDER_ELEMENT], an array that the
    caller supplied (never written by this module), or the one-slot array
    [[PLACEHOLDER_ELEMENT]] allocated by [filters.has], which lives in the
    heap because the compiled [has] closure writes [context[0]]. *)
Inductive Value : Type :=
| VElem (e : Elem)
| VPlaceholder
| VArray (xs : list Value)
| VSlot (l : nat).

Definition PLACEHOLDER_ELEMENT : Value := VPlaceholder.

(** Cell [l] holds [context[0]] of the [l]-th allocated one-slot array. *)
Definition Heap : Type := list Value.

(** A JavaScript predicate over elements; it may write [:has] slots. *)
Definition Pred : Type := Elem -> Heap -> bool * Heap.

Record Adapter : Type := {
  isTag : Elem -> bool;
  getParent : Value -> option Elem;
  getChildren : Elem -> list Elem;
  existsOne : Pred -> list Elem -> Heap -> bool * Heap
}.

(** ** Compiled queries *)

Inductive CompiledQuery : Type :=
| trueFunc
| falseFunc
(** [function base(elem)] of [wrap] *)
| base (adapter : Adapter) (next : CompiledQuery)
(** [function combine(elem)] of [reduceRules] *)
| combine (a b : CompiledQuery)
(** [function not(elem)] of [filters.not] *)
| not_ (func next : CompiledQuery)
(** [function hasChild(elem)] of [filters.has] *)
| hasChild (adapter : Adapter) (next : CompiledQuery)
(** [function has(elem)] of [filters.has], the variant writing [context[0]] *)
| has_slot (adapter : Adapter) (context : nat) (func next : CompiledQuery)
(** [function has(elem)] of [filters.has], the variant without a context *)
| has (adapter : Adapter) (func next : CompiledQuery)
(** a closure created by a leaf builder of [Rules], with the compiled
    queries it captured *)
| extern (code : ExtCode) (env : list CompiledQuery).

(** [q === trueFunc] and [q === falseFunc]. *)
Definition is_trueFunc (q : CompiledQuery) : bool :=
  match q with trueFunc => true | _ => false end.

Definition is_falseFunc (q : CompiledQuery) : bool :=
  match q with falseFunc => true | _ => false end.

Record InternalOptions : Type := {
  adapter : Adapter;
  xmlMode : option bool;
  strict : option bool;
  rootFunc : option CompiledQuery;
  context : option Value
}.

(** [!!b] for an optional boolean field. *)
Definition truthy (b : option bool) : bool :=
  match b with Some true => true | _ => false end.

(** The function object handed to the caller, with its optional
    [shouldTestNextSiblings] property as it is at that moment ([None]:
    the property was not set on this function). *)
Record Query : Type := {
  func : CompiledQuery;
  shouldTestNextSiblings : option bool
}.

(** ** Compilation effects: heap and exceptions *)

Inductive Error : Type :=
(** [Error("complex selectors in :not aren't allowed in strict mode")] *)
| StrictModeViolation
(** [TypeError]: [Rules[rule.type]] is not a function *)
| UnsupportedSelectorKind (kind : string)
(** thrown by [parse] or by a leaf builder *)
| ExternalError (msg : string).

Definition M (A : Type) : Type := Heap -> Error + A * Heap.

Definition ret {A} (a : A) : M A := fun h => inr (a, h).

Definition throw {A} (e : Error) : M A := fun _ => inl e.

Definition bind {A B} (m : M A) (k : A -> M B) : M B :=
  fun h => match m h with
           | inl e => inl e
           | inr (a, h') => k a h'
           end.

Notation "x <- m ;; k" := (bind m (fun x => k))
  (at level 100, m at next level, right associativity).

Fixpoint mapM {A B} (f : A -> M B) (l : list A) : M (list B) :=
  match l with
  | [] => ret []
  | a :: l' => b <- f a ;; bs <- mapM f l' ;; ret (b :: bs)
  end.

(** [[PLACEHOLDER_ELEMENT]]: a fresh one-slot array. *)
Definition alloc : M nat :=
  fun h => inr (length h, h ++ [PLACEHOLDER_ELEMENT]).

Definition Builder : Type :=
  CompiledQuery -> Selector -> InternalOptions -> option Value -> M CompiledQuery.

(** ** The modules imported by [compile.ts] *)

Class Imports : Type := {
  (** [./procedure]: the weight of each token type *)
  procedure : gmap string Z;
  (** [./sort] *)
  sortRules : list Selector -> list Selector;
  (** [./general]: the leaf builders, keyed by token type *)
  Rules : gmap string Builder;
  (** css-what *)
  parse : string -> InternalOptions -> Error + list (list Selector);
  (** the body of a closure created by a leaf builder, given the
      behaviour of the compiled queries it captured *)
  call_extern : ExtCode -> list Pred -> Pred
}.

Context `{!Imports}.

(** The same modules with another table of leaf builders. *)
Definition withRules (table : gmap string Builder) : Imports := {|
  procedure := procedure;
  sortRules := sortRules;
  Rules := table;
  parse := parse;
  call_extern := call_extern
|}.

(** ** Calling a compiled query

    A [has] closure is created after its slot was allocated and heaps
    only grow, so [context[0] = elem] always finds its cell. *)

Fixpoint call (q : CompiledQuery) (elem : Elem) (h : Heap) : bool * Heap :=
  match q with
  | trueFunc => (true, h)
  | falseFunc => (false, h)
  | base adapter next =>
      if isTag adapter elem then call next elem h else (false, h)
  | combine a b =>
      let '(r, h1) := call a elem h in
      if r then (true, h1) else call b elem h1
  | not_ func next =>
      let '(r, h1) := call func elem h in
      if r then (false, h1) else call next elem h1
  | hasChild adapter next =>
      if existsb (isTag adapter) (getChildren adapter elem)
      then call next elem h else (false, h)
  | has_slot adapter context func next =>
      let '(r, h1) := call next elem h in
      if r then
        existsOne adapter (call func) (getChildren adapter elem)
                  (<[context := VElem elem]> h1)
      else (false, h1)
  | has adapter func next =>
      let '(r, h1) := call next elem h in
      if r then existsOne adapter (call func) (getChildren adapter elem) h1
      else (false, h1)
  | extern code env => call_extern code (List.map call env) elem h
  end.

(** [qs.some(q => q(elem))]: the queries are called from left to right
    until one returns true. *)
Fixpoint callSome (qs : list CompiledQuery) (elem : Elem) (h : Heap) : bool * Heap :=
  match qs with
  | [] => (false, h)
  | q :: qs' =>
      let '(r, h1) := call q elem h in
      if r then (true, h1) else callSome qs' elem h1
  end.

(** ** [compile.ts] *)

Definition wrap (next : CompiledQuery) (options : InternalOptions) : CompiledQuery :=
  base (adapter options) next.

Definition isTraversal (t : Selector) : bool :=
  match procedure !! type t with
  | Some w => (w <? 0)%Z
  | None => false
  end.

(** [Array.isArray(context)] *)
Definition isArray (context : option Value) : bool :=
  match context with
  | Some (VArray _) | Some (VSlot _) => true
  | _ => false
  end.

(** [e === PLACEHOLDER_ELEMENT || !!adapter.getParent(e)] *)
Definition anchored (adapter : Adapter) (e : Value) : bool :=
  match e with
  | VPlaceholder => true
  | _ => match getParent adapter e with Some _ => true | None => false end
  end.

(** The members of an array ([None]: the value is not an array). *)
Definition elements (context : Value) (h : Heap) : option (list Value) :=
  match context with
  | VArray xs => Some xs
  | VSlot l => match h !! l with Some e => Some [e] | None => None end
  | _ => None
  end.

(** [!!context && !!context.length && context.every(...)].  A tree node
    and the placeholder have no [length]. *)
Definition hasContext (adapter : Adapter) (context : option Value) (h : Heap) : bool :=
  match context with
  | Some c =>
      match elements c h with
      | Some xs => negb (Nat.eqb (length xs) 0) && forallb (anchored adapter) xs
      | None => false
      end
  | None => false
  end.

(** The group starts with a traversal other than [descendant]. *)
Definition startsExplicit (t : list Selector) : Prop :=
  exists t0 rest, t = t0 :: rest /\ isTraversal t0 = true /\ type t0 <> "descendant".

(** The body of the [forEach] callback of [absolutize]; the result is
    the group after the callback ran. *)
Definition absolutize_group (hasContext : bool) (t : list Selector) : list Selector :=
  if match t with
     | t0 :: _ => isTraversal t0 && negb (String.eqb (type t0) "descendant")
     | [] => false
     end
  then SCOPE_TOKEN :: t
  else if hasContext && negb (existsb includesScopePseudo t)
  then SCOPE_TOKEN :: DESCENDANT_TOKEN :: t
  else t.

(** [absolutize] mutates the groups in place; the result is the token
    list afterwards. *)
Definition absolutize (token : list (list Selector)) (options : InternalOptions)
    (context : option Value) (h : Heap) : list (list Selector) :=
  List.map (absolutize_group (hasContext (adapter options) context h)) token.

Definition compileRule (options : InternalOptions) (context : option Value)
    (previous : CompiledQuery) (rule : Selector) : M CompiledQuery :=
  if is_falseFunc previous then ret falseFunc
  else match Rules !! type rule with
       | Some builder => builder previous rule options context
       | None => throw (UnsupportedSelectorKind (type rule))
       end.

(** [rules.reduce(callback, previous)] *)
Fixpoint reduce_rules (options : InternalOptions) (context : option Value)
    (rules : list Selector) (previous : CompiledQuery) : M CompiledQuery :=
  match rules with
  | [] => ret previous
  | rule :: rest =>
      q <- compileRule options context previous rule ;;
      reduce_rules options context rest q
  end.

Definition compileRules (rules : list Selector) (options : InternalOptions)
    (context : option Value) : M CompiledQuery :=
  reduce_rules options context rules
    (match rootFunc options with Some f => f | None => trueFunc end).

Definition reduceRules (a b : CompiledQuery) : CompiledQuery :=
  if is_falseFunc b || is_trueFunc a then a
  else if is_falseFunc a || is_trueFunc b then b
  else combine a b.

Definition containsTraversal (t : list Selector) : bool :=
  existsb isTraversal t.

(** The part of the [map] callback of [compileToken] that precedes the
    call of [compileRules]: the rules afterwards, and whether
    [shouldTestNextSiblings] was set. *)
Definition adjustRules (isArrayContext : bool) (rules : list Selector) : list Selector * bool :=
  match rules with
  | first :: second :: rest =>
      if negb (isScopePseudo first) then (rules, false)
      else if isArrayContext && String.eqb (type second) "descendant"
      then (first :: FLEXIBLE_DESCENDANT_TOKEN :: rest, false)
      else if String.eqb (type second) "adjacent" || String.eqb (type second) "sibling"
      then (rules, true)
      else (rules, false)
  | _ => (rules, false)
  end.

(** [token.map(callback)], threading the variable
    [shouldTestNextSiblings]. *)
Fixpoint map_rules (isArrayContext : bool) (options : InternalOptions)
    (context : option Value) (token : list (list Selector))
    (shouldTest : bool) : M (list CompiledQuery * bool) :=
  match token with
  | [] => ret ([], shouldTest)
  | rules :: rest =>
      let '(rules', set) := adjustRules isArrayContext rules in
      q <- compileRules rules' options context ;;
      r <- map_rules isArrayContext options context rest (set || shouldTest) ;;
      ret (q :: fst r, snd r)
  end.

(** The context in effect after the first lines of [compileToken]:
    [options.context] when there is one, else the argument; wrapped in
    an array unless the argument was an array. *)
Definition effectiveContext (options : InternalOptions) : option Value -> option Value :=
  let fromOptions := context options in
  fun context =>
    let isArrayContext := isArray context in
    let context := match fromOptions with Some c => Some c | None => context end in
    match context with
    | Some c => if isArrayContext then Some c else Some (VArray [c])
    | None => None
    end.

(** The groups as [compileToken] leaves them after [absolutize]. *)
Definition prepared (token : list (list Selector)) (options : InternalOptions)
    (context : option Value) (h : Heap) : list (list Selector) :=
  absolutize
    (List.map sortRules (List.filter (fun t => Nat.ltb 0 (length t)) token))
    options (effectiveContext options context) h.

(** The rule lists that [compileToken] hands to [compileRules]. *)
Definition compiledGroups (token : list (list Selector)) (options : InternalOptions)
    (context : option Value) (h : Heap) : list (list Selector) :=
  List.map (fun rules => fst (adjustRules (isArray context) rules))
    (prepared token options context h).

Definition compileToken (token : list (list Selector)) (options : InternalOptions)
    (context : option Value) : M Query :=
  fun h =>
    (r <- map_rules (isArray context) options (effectiveContext options context)
            (prepared token options context h) false ;;
     ret {| func := fold_left reduceRules (fst r) falseFunc;
            shouldTestNextSiblings := Some (snd r) |}) h.

Definition compileUnsafe (selector : string) (options : InternalOptions)
    (context : option Value) : M Query :=
  match parse selector options with
  | inl e => throw e
  | inr token => compileToken token options context
  end.

Definition compile (selector : string) (options : InternalOptions)
    (context : option Value) : M Query :=
  next <- compileUnsafe selector options context ;;
  ret {| func := wrap (func next) options; shouldTestNextSiblings := None |}.

(** The options that [filters.not] and [filters.has] derive. *)
Definition derived (options : InternalOptions) : InternalOptions :=
  {| xmlMode := Some (truthy (xmlMode options));
     strict := Some (truthy (strict options));
     adapter := adapter options;
     rootFunc := None;
     context := None |}.

Definition filters_not (next : CompiledQuery) (token : list (list Selector))
    (options : InternalOptions) (context : option Value) : M CompiledQuery :=
  let opts := derived options in
  if truthy (strict opts) &&
     (Nat.ltb 1 (length token) || existsb containsTraversal token)
  then throw StrictModeViolation
  else
    q <- compileToken token opts context ;;
    if is_falseFunc (func q) then ret next
    else if is_trueFunc (func q) then ret falseFunc
    else ret (not_ (func q) next).

Definition filters_has (next : CompiledQuery) (token : list (list Selector))
    (options : InternalOptions) : M CompiledQuery :=
  let adapter := adapter options in
  let opts := derived options in
  context <- (if existsb containsTraversal token
              then l <- alloc ;; ret (Some l)
              else ret None) ;;
  q <- compileToken token opts (option_map VSlot context) ;;
  if is_falseFunc (func q) then ret falseFunc
  else if is_trueFunc (func q) then ret (hasChild adapter next)
  else
    let func := wrap (func q) options in
    match context with
    | Some l => ret (has_slot adapter l func next)
    | None => ret (has adapter func next)
    end.

Definition filters_matches (next : CompiledQuery) (token : list (list Selector))
    (options : InternalOptions) (context : option Value) : M CompiledQuery :=
  let opts :=
    {| xmlMode := Some (truthy (xmlMode options));
       strict := Some (truthy (strict options));
       rootFunc := Some next;
       adapter := adapter options;
       context := None |} in
  q <- compileToken token opts context ;;
  ret (func q).

End Model.

Arguments Value : clear implicits.
Arguments Heap : clear implicits.
Arguments Pred : clear implicits.
Arguments Adapter : clear implicits.
Arguments CompiledQuery : clear implicits.
Arguments InternalOptions : clear implicits.
Arguments Query : clear implicits.
Arguments Builder : clear implicits.
Arguments Imports : clear implicits.
Arguments M : clear implicits.

(** ** A concrete instance, for examples

    A five-node tree, a depth-first [existsOne], and a small table of
    leaf builders whose closures record the rule and the context they
    were built for. *)

Module Sample.

(** html(0) has children div(1) and span(2); div(1) has child span(3);
    span(3) has child b(4). *)
Definition tagName (e : nat) : string :=
  match e with
  | 0 => "html" | 1 => "div" | 2 => "span" | 3 => "span" | 4 => "b"
  | _ => EmptyString
  end.

Definition parentOf (e : nat) : option nat :=
  match e with
  | 1 | 2 => Some 0
  | 3 => Some 1
  | 4 => Some 3
  | _ => None
  end.

Definition childrenOf (e : nat) : list nat :=
  match e with
  | 0 => [1; 2]
  | 1 => [3]
  | 3 => [4]
  | _ => []
  end.

Fixpoint existsOne_depth (depth : nat) (test : Pred nat) (elems : list nat)
    (h : Heap nat) : bool * Heap nat :=
  match depth with
  | 0 => (false, h)
  | S d =>
      (fix some (elems : list nat) (h : Heap nat) : bool * Heap nat :=
         match elems with
         | [] => (false, h)
         | e :: rest =>
             let '(r, h1) := test e h in
             if r then (true, h1)
             else
               let '(r', h2) := existsOne_depth d test (childrenOf e) h1 in
               if r' then (true, h2) else some rest h2
         end) elems h
  end.

Definition treeAdapter : Adapter nat := {|
  isTag := fun e => Nat.ltb e 5;
  getParent := fun v => match v with VElem e => parentOf e | _ => None end;
  getChildren := childrenOf;
  existsOne := existsOne_depth 5
|}.

(** The code of a leaf closure: the rule and the context it captured. *)
Inductive Code : Type :=
| Leaf (rule : Selector) (context : option (Value nat)).

Definition memberOf (e : nat) (v : Value nat) : bool :=
  match v with VElem e' => Nat.eqb e e' | _ => false end.

Definition inContext (context : option (Value nat)) (e : nat) (h : Heap nat) : bool :=
  match context with
  | Some (VArray xs) => existsb (memberOf e) xs
  | Some (VSlot l) => match h !! l with Some v => memberOf e v | None => false end
  | _ => false
  end.

Fixpoint ancestor (depth : nat) (next : Pred nat) (e : nat) (h : Heap nat) : bool * Heap nat :=
  match depth with
  | 0 => (false, h)
  | S d =>
      match parentOf e with
      | None => (false, h)
      | Some p =>
          let '(r, h1) := next p h in
          if r then (true, h1) else ancestor d next p h1
      end
  end.

Definition run (code : Code) (env : list (Pred nat)) : Pred nat :=
  fun e h =>
    match code, env with
    | Leaf (TagSelector name) _, [next] =>
        if String.eqb (tagName e) name then next e h else (false, h)
    | Leaf (PseudoSelector "scope" _) context, [next] =>
        if inContext context e h then next e h else (false, h)
    | Leaf (Traversal child) _, [next] =>
        match parentOf e with Some p => next p h | None => (false, h) end
    | Leaf (Traversal descendant) _, [next]
    | Leaf FlexibleDescendant _, [next] => ancestor 5 next e h
    | _, _ => (false, h)
    end.

Definition leaf : Builder nat Code :=
  fun next rule _ context => ret (extern (Leaf rule context) [next]).

(** Modelled from the spec: the weight table of [./procedure], of which
    [compile.ts] reads only the sign.  The traversal kinds carry a
    negative weight; the filter kinds do not. *)
Definition weights : gmap string Z :=
  list_to_map
    [("descendant", -1); ("child", -1); ("sibling", -1); ("adjacent", -1);
     ("pseudo", 0); ("attribute", 1); ("tag", 30); ("universal", 50)]%Z.

(** An attribute that must start with the empty string never matches. *)
Definition attribute : Builder nat Code :=
  fun next rule options context =>
    match rule with
    | AttributeSelector _ "start" EmptyString _ => ret falseFunc
    | _ => leaf next rule options context
    end.

Definition builders : gmap string (Builder nat Code) :=
  list_to_map
    [("universal", (fun next _ _ _ => ret next) : Builder nat Code);
     ("tag", leaf); ("pseudo", leaf); ("attribute", attribute);
     ("descendant", leaf); ("_flexibleDescendant", leaf);
     ("child", leaf); ("adjacent", leaf); ("sibling", leaf)].

(** The token lists css-what produces for a few selectors. *)
Definition parseTable (selector : string) (_ : InternalOptions nat Code)
    : Error + list (list Selector) :=
  if String.eqb selector "*" then inr [[UniversalSelector]]
  else if String.eqb selector "span" then inr [[TagSelector "span"]]
  else if String.eqb selector "> span" then
    inr [[Traversal child; TagSelector "span"]]
  else if String.eqb selector ":scope + span" then
    inr [[PseudoSelector "scope" DataNull; Traversal adjacent; TagSelector "span"]]
  else if String.eqb selector ":scope span" then
    inr [[PseudoSelector "scope" DataNull; Traversal descendant; TagSelector "span"]]
  else inl (ExternalError "parse").

#[global] Instance imports : Imports nat Code := {|
  procedure := weights;
  sortRules := fun rules => rules;
  Rules := builders;
  parse := parseTable;
  call_extern := run
|}.

Definition options : InternalOptions nat Code := {|
  adapter := treeAdapter;
  xmlMode := None;
  strict := None;
  rootFunc := None;
  context := None
|}.

Definition strictOptions : InternalOptions nat Code := {|
  adapter := treeAdapter;
  xmlMode := None;
  strict := Some true;
  rootFunc := None;
  context := None
|}.

(** Tokens and values used in the examples. *)
Definition span : Selector := TagSelector "span".
Definition div : Selector := TagSelector "div".
Definition scope : Selector := PseudoSelector "scope" DataNull.
Definition never : Selector := AttributeSelector "class" "start" EmptyString false.

(** [options] with a root predicate and the context [[div]]. *)
Definition contextual : InternalOptions nat Code := {|
  adapter := treeAdapter;
  xmlMode := Some false;
  strict := None;
  rootFunc := Some falseFunc;
  context := Some (VArray [VElem 1])
|}.

Definition isSpan : CompiledQuery nat Code := extern (Leaf span None) [trueFunc].
Definition isDiv : CompiledQuery nat Code := extern (Leaf div None) [trueFunc].

(** What [:scope + span] compiles to. *)
Definition nextSpan : Query nat Code := {|
  func :=
    extern (Leaf span None)
      [extern (Leaf (Traversal adjacent) None)
         [extern (Leaf scope None) [trueFunc]]];
  shouldTestNextSiblings := Some true
|}.

(** What the argument of [:has(> span)] compiles to, with slot 0. *)
Definition childSpan : Query nat Code := {|
  func :=
    extern (Leaf span (Some (VSlot 0)))
      [extern (Leaf (Traversal child) (Some (VSlot 0)))
         [extern (Leaf scope (Some (VSlot 0))) [trueFunc]]];
  shouldTestNextSiblings := Some false
|}.

End Sample.

(** ** The sample with [:not] wired in

    Modelled from the spec: the [pseudo] builder of [./general] and
    [./pseudos], which hands a [:not] node with a selector-list argument
    to [filters.not] under the options it received, so that compiling
    the argument of one [:not] can reach another.  The nesting depth is
    bounded; every other node is handled as in [Sample]. *)

Module Nested.

Definition withPseudo (pseudo : Builder nat Sample.Code) : Imports nat Sample.Code := {|
  procedure := Sample.weights;
  sortRules := fun rules => rules;
  Rules := <["pseudo" := pseudo]> Sample.builders;
  parse := Sample.parseTable;
  call_extern := Sample.run
|}.

Fixpoint pseudo (depth : nat) : Builder nat Sample.Code :=
  match depth with
  | 0 => Sample.leaf
  | S depth' =>
      fun next rule options context =>
        match rule with
        | PseudoSelector "not" (DataSelectors token) =>
            @filters_not _ _ (withPseudo (pseudo depth')) next token options context
        | _ => Sample.leaf next rule options context
        end
  end.

Definition imports (depth : nat) : Imports nat Sample.Code :=
  withPseudo (pseudo depth).

(** [:not(div > span)] as a node. *)
Definition notChild : Selector :=
  PseudoSelector "not"
    (DataSelectors [[Sample.div; Traversal child; Sample.span]]).

End Nested.

(** * Properties *)

(** ** The selector AST *)

(** Induction on tokens that reaches the selector lists nested in
    pseudo-class arguments. *)
Section SelectorInduction.

Variable P : Selector -> Prop.
Hypothesis Hattribute : forall name action value ignoreCase,
  P (AttributeSelector name action value ignoreCase).
Hypothesis Hnull : forall name, P (PseudoSelector name DataNull).
Hypothesis Hstring : forall name s, P (PseudoSelector name (DataString s)).
Hypothesis Hselectors : forall name d,
  Forall (Forall P) d -> P (PseudoSelector name (DataSelectors d)).
Hypothesis Helement : forall name, P (PseudoElement name).
Hypothesis Htag : forall name, P (TagSelector name).
Hypothesis Huniversal : P UniversalSelector.
Hypothesis Htraversal : forall k, P (Traversal k).
Hypothesis Hflexible : P FlexibleDescendant.

Fixpoint Selector_nested_ind (t : Selector) : P t :=
  match t with
  | AttributeSelector name action value ignoreCase =>
      Hattribute name action value ignoreCase
  | PseudoSelector name DataNull => Hnull name
  | PseudoSelector name (DataString s) => Hstring name s
  | PseudoSelector name (DataSelectors d) =>
      Hselectors name d
        ((fix groups (d : list (list Selector)) : Forall (Forall P) d :=
            match d with
            | [] => @List.Forall_nil _ _
            | g :: d' =>
                @List.Forall_cons _ _ g _
                  ((fix nodes (g : list Selector) : Forall P g :=
                      match g with
                      | [] => @List.Forall_nil _ _
                      | t :: g' => @List.Forall_cons _ _ t _ (Selector_nested_ind t) (nodes g')
                      end) g)
                  (groups d')
            end) d)
  | PseudoElement name => Helement name
  | TagSelector name => Htag name
  | UniversalSelector => Huniversal
  | Traversal k => Htraversal k
  | FlexibleDescendant => Hflexible
  end.

End SelectorInduction.

Lemma ScopeWithin_includes t : ScopeWithin t -> includesScopePseudo t = true.
Proof.
  induction 1 as [data | name d g t Hg Ht _ IH]; simpl.
  - reflexivity.
  - apply orb_true_iff. right.
    apply existsb_exists. exists g. split; [exact Hg |].
    apply existsb_exists. exists t. split; [exact Ht | exact IH].
Qed.

Lemma includes_ScopeWithin t : includesScopePseudo t = true -> ScopeWithin t.
Proof.
  induction t as [| | | name d IH | | | | |] using Selector_nested_ind;
    simpl; try discriminate.
  - rewrite orb_false_r. intros H. apply String.eqb_eq in H. subst name.
    constructor.
  - rewrite orb_false_r. intros H. apply String.eqb_eq in H. subst name.
    constructor.
  - intros H. apply orb_true_iff in H. destruct H as [H | H].
    + apply String.eqb_eq in H. subst name. constructor.
    + apply existsb_exists in H. destruct H as (g & Hg & H).
      apply existsb_exists in H. destruct H as (t & Ht & H).
      apply (ScopeNested name d g t Hg Ht).
      rewrite List.Forall_forall in IH. specialize (IH g Hg).
      rewrite List.Forall_forall in IH. exact (IH t Ht H).
Qed.

(** [includesScopePseudo] decides the occurrence of [:scope] at any
    depth. *)
Lemma includesScopePseudo_spec t : includesScopePseudo t = true <-> ScopeWithin t.
Proof. split; [apply includes_ScopeWithin | apply ScopeWithin_includes]. Qed.

Lemma some_includesScopePseudo g :
  existsb includesScopePseudo g = true <-> ScopeInGroup g.
Proof.
  unfold ScopeInGroup. rewrite existsb_exists.
  split; intros (t & Ht & H); exists t; split; try exact Ht;
    apply includesScopePseudo_spec; exact H.
Qed.

Lemma lookup_map {A B} (f : A -> B) (l : list A) (i : nat) :
  List.map f l !! i = option_map f (l !! i).
Proof.
  revert i. induction l as [| a l IH]; intros [| i]; simpl; try reflexivity.
  apply IH.
Qed.

Section Basics.

Context {Elem ExtCode : Type} `{!Imports Elem ExtCode}.

Abbreviation Value := (Value Elem).
Abbreviation Heap := (Heap Elem).
Abbreviation CompiledQuery := (CompiledQuery Elem ExtCode).
Abbreviation InternalOptions := (InternalOptions Elem ExtCode).
Abbreviation Query := (Query Elem ExtCode).
Abbreviation M := (M Elem).

(** ** The compilation monad *)

Lemma bind_inr {A B} (m : M A) (k : A -> M B) h a h' :
  m h = inr (a, h') -> bind m k h = k a h'.
Proof. intros H. unfold bind. rewrite H. reflexivity. Qed.

Lemma bind_inl {A B} (m : M A) (k : A -> M B) h e :
  m h = inl e -> bind m k h = inl e.
Proof. intros H. unfold bind. rewrite H. reflexivity. Qed.

Lemma bind_inv {A B} (m : M A) (k : A -> M B) h b h' :
  bind m k h = inr (b, h') ->
  exists a h1, m h = inr (a, h1) /\ k a h1 = inr (b, h').
Proof.
  unfold bind. destruct (m h) as [e | [a h1]]; [discriminate |].
  intros H. exists a, h1. split; [reflexivity | exact H].
Qed.

(** ** Sentinels *)

Lemma is_falseFunc_spec (q : CompiledQuery) : is_falseFunc q = true <-> q = falseFunc.
Proof. destruct q; simpl; split; congruence. Qed.

Lemma is_trueFunc_spec (q : CompiledQuery) : is_trueFunc q = true <-> q = trueFunc.
Proof. destruct q; simpl; split; congruence. Qed.

Lemma is_falseFunc_false (q : CompiledQuery) : q <> falseFunc -> is_falseFunc q = false.
Proof. destruct q; simpl; congruence. Qed.

Lemma is_trueFunc_false (q : CompiledQuery) : q <> trueFunc -> is_trueFunc q = false.
Proof. destruct q; simpl; congruence. Qed.

(** ** [reduceRules] *)

Lemma reduceRules_false_r (a : CompiledQuery) : reduceRules a falseFunc = a.
Proof. reflexivity. Qed.

Lemma reduceRules_false_l (b : CompiledQuery) : reduceRules falseFunc b = b.
Proof. destruct b; reflexivity. Qed.

Lemma reduceRules_true_l (b : CompiledQuery) : reduceRules trueFunc b = trueFunc.
Proof. destruct b; reflexivity. Qed.

Lemma reduceRules_true_r (a : CompiledQuery) : reduceRules a trueFunc = trueFunc.
Proof. destruct a; reflexivity. Qed.

Lemma reduceRules_combine (a b : CompiledQuery) :
  a <> trueFunc -> a <> falseFunc -> b <> trueFunc -> b <> falseFunc ->
  reduceRules a b = combine a b.
Proof.
  intros Hat Haf Hbt Hbf. unfold reduceRules.
  rewrite (is_falseFunc_false b Hbf), (is_trueFunc_false a Hat),
    (is_falseFunc_false a Haf), (is_trueFunc_false b Hbt).
  reflexivity.
Qed.

(** ** [compileRules] *)

Lemma bind_ret_r {A} (m : M A) h : bind m ret h = m h.
Proof. unfold bind, ret. destruct (m h) as [e | [a h']]; reflexivity. Qed.

Lemma reduce_rules_app options context pre rest previous h :
  reduce_rules options context (pre ++ rest) previous h =
  bind (reduce_rules options context pre previous)
       (reduce_rules options context rest) h.
Proof.
  revert previous h. induction pre as [| rule pre IH]; intros previous h; simpl.
  - reflexivity.
  - unfold bind.
    destruct (compileRule options context previous rule h) as [e | [q h1]].
    + reflexivity.
    + rewrite IH. reflexivity.
Qed.

(** Once the running predicate is [falseFunc], the remaining callbacks
    return [falseFunc] without looking at [Rules]. *)
Lemma reduce_rules_falseFunc options context rest h :
  reduce_rules options context rest falseFunc h = inr (falseFunc, h).
Proof.
  revert h. induction rest as [| rule rest IH]; intros h; simpl.
  - reflexivity.
  - unfold bind. simpl. apply IH.
Qed.

End Basics.

Section Properties.

Context {Elem ExtCode : Type} `{!Imports Elem ExtCode}.

Abbreviation Value := (Value Elem).
Abbreviation Heap := (Heap Elem).
Abbreviation CompiledQuery := (CompiledQuery Elem ExtCode).
Abbreviation InternalOptions := (InternalOptions Elem ExtCode).
Abbreviation Query := (Query Elem ExtCode).
Abbreviation M := (M Elem).

(** C6.  [reduceRules a b]: when an operand is [falseFunc] the result is
    the other operand itself; when an operand is [trueFunc] the result is
    [trueFunc] itself; otherwise it is the closure [combine], which calls
    [a] first and calls [b], from the heap [a] left, only when [a]
    returned false. *)
Theorem reduceRules_spec (a b : CompiledQuery) :
  (b = falseFunc -> reduceRules a b = a) /\
  (a = falseFunc -> reduceRules a b = b) /\
  (a = trueFunc \/ b = trueFunc -> reduceRules a b = trueFunc) /\
  (a <> trueFunc -> a <> falseFunc -> b <> trueFunc -> b <> falseFunc ->
   reduceRules a b = combine a b /\
   forall elem h,
     call (reduceRules a b) elem h =
     (if fst (call a elem h) then (true, snd (call a elem h))
      else call b elem (snd (call a elem h)))).
Proof.
  split; [| split; [| split]].
  - intros ->. apply reduceRules_false_r.
  - intros ->. apply reduceRules_false_l.
  - intros [-> | ->]; [apply reduceRules_true_l | apply reduceRules_true_r].
  - intros Hat Haf Hbt Hbf.
    rewrite (reduceRules_combine a b Hat Haf Hbt Hbf).
    split; [reflexivity |].
    intros elem h. simpl. destruct (call a elem h) as [r h1]. reflexivity.
Qed.

(** The fold over a prefix depends only on the builders registered for
    the token types of that prefix. *)
Lemma reduce_rules_agree (table : gmap string (Builder Elem ExtCode))
    options context pre previous h :
  (forall rule, In rule pre -> table !! type rule = Rules !! type rule) ->
  @reduce_rules _ _ (withRules table) options context pre previous h =
  reduce_rules options context pre previous h.
Proof.
  revert previous h. induction pre as [| rule pre IH]; intros previous h Hagree; simpl.
  - reflexivity.
  - unfold bind, compileRule. simpl.
    pose proof (Hagree rule (or_introl eq_refl)) as E. unfold Builder in *.
    rewrite E.
    destruct (if is_falseFunc previous then _ else _) as [e | [q h1]]; [reflexivity |].
    apply IH. intros r Hr. apply Hagree. right. exact Hr.
Qed.

(** C7.  [compileRules] folds the rules from left to right, starting
    from [options.rootFunc] when present and from [trueFunc] otherwise;
    each step on a running predicate other than [falseFunc] calls the
    builder registered for the rule's type.  Once the running predicate
    is [falseFunc] the chain compiles to [falseFunc], with the heap
    untouched and without error, whatever builders are registered, or
    missing, for the remaining rules. *)
Theorem compileRules_spec (options : InternalOptions) (context : option Value) :
  (forall h,
     compileRules [] options context h =
     inr (match rootFunc options with Some f => f | None => trueFunc end, h)) /\
  (forall pre rule h,
     compileRules (pre ++ [rule]) options context h =
     bind (compileRules pre options context)
          (fun previous => compileRule options context previous rule) h) /\
  (forall previous rule,
     previous <> falseFunc ->
     compileRule options context previous rule =
     match Rules !! type rule with
     | Some builder => builder previous rule options context
     | None => throw (UnsupportedSelectorKind (type rule))
     end) /\
  (forall (table : gmap string (Builder Elem ExtCode)) pre rest h h',
     (forall rule, In rule pre -> table !! type rule = Rules !! type rule) ->
     compileRules pre options context h = inr (falseFunc, h') ->
     @compileRules _ _ (withRules table) (pre ++ rest) options context h =
     inr (falseFunc, h')).
Proof.
  split; [| split; [| split]].
  - intros h. reflexivity.
  - intros pre rule h. unfold compileRules. rewrite reduce_rules_app.
    unfold bind. destruct (reduce_rules options context pre _ h) as [e | [q h1]];
      [reflexivity |].
    simpl. apply bind_ret_r.
  - intros previous rule Hne. unfold compileRule.
    rewrite (is_falseFunc_false previous Hne). reflexivity.
  - intros table pre rest h h' Hagree Hpre. unfold compileRules in *.
    rewrite (@reduce_rules_app _ _ (withRules table)).
    unfold bind. rewrite (reduce_rules_agree table _ _ _ _ _ Hagree), Hpre.
    apply (@reduce_rules_falseFunc _ _ (withRules table)).
Qed.

(** ** [absolutize] *)

Lemma startsExplicit_test t :
  match t with
  | t0 :: _ => isTraversal t0 && negb (String.eqb (type t0) "descendant")
  | [] => false
  end = true <-> startsExplicit t.
Proof.
  unfold startsExplicit. destruct t as [| t0 rest].
  - split; [discriminate | intros (? & ? & ? & _); discriminate].
  - rewrite andb_true_iff, negb_true_iff, String.eqb_neq. split.
    + intros [Ht Hd]. exists t0, rest. auto.
    + intros (t0' & rest' & E & Ht & Hd). injection E as -> ->. auto.
Qed.

Lemma absolutize_group_explicit hc t :
  startsExplicit t -> absolutize_group hc t = SCOPE_TOKEN :: t.
Proof.
  intros H. apply startsExplicit_test in H. unfold absolutize_group.
  rewrite H. reflexivity.
Qed.

Lemma absolutize_group_implicit hc t :
  ~ startsExplicit t ->
  absolutize_group hc t =
  if hc && negb (existsb includesScopePseudo t)
  then SCOPE_TOKEN :: DESCENDANT_TOKEN :: t else t.
Proof.
  intros H. unfold absolutize_group.
  destruct (match t with [] => false | _ => _ end) eqn:E; [| reflexivity].
  apply startsExplicit_test in E. contradiction.
Qed.

Lemma absolutize_lookup token (options : InternalOptions) context h i :
  absolutize token options context h !! i =
  option_map (absolutize_group (hasContext (adapter options) context h)) (token !! i).
Proof. apply lookup_map. Qed.

(** C1, as the code has it.  A group whose first node is a traversal
    other than [descendant] is not left unchanged: exactly one node, the
    [:scope] token, is prepended to it, with or without a context.  The
    descendant marker is prepended, under [:scope], only to a group that
    does not start so, when a context is present and the group contains
    no [:scope]. *)
Theorem absolutize_explicit_group token (options : InternalOptions) context h i t :
  token !! i = Some t ->
  (startsExplicit t ->
   absolutize token options context h !! i = Some (SCOPE_TOKEN :: t)) /\
  (absolutize token options context h !! i =
     Some (SCOPE_TOKEN :: DESCENDANT_TOKEN :: t) ->
   ~ startsExplicit t /\
   hasContext (adapter options) context h = true /\
   ~ ScopeInGroup t).
Proof.
  intros Ht. rewrite absolutize_lookup, Ht. simpl. split.
  - intros H. rewrite (absolutize_group_explicit _ _ H). reflexivity.
  - intros H. injection H as H.
    assert (Hn : ~ startsExplicit t).
    { intros He. rewrite (absolutize_group_explicit _ _ He) in H.
      injection H as H. apply (f_equal (@length _)) in H. simpl in H. lia. }
    split; [exact Hn |].
    rewrite (absolutize_group_implicit _ _ Hn) in H.
    destruct (hasContext (adapter options) context h); simpl in H.
    + destruct (existsb includesScopePseudo t) eqn:E; simpl in H.
      * apply (f_equal (@length _)) in H. simpl in H. lia.
      * split; [reflexivity |]. rewrite <- some_includesScopePseudo, E. discriminate.
    + apply (f_equal (@length _)) in H. simpl in H. lia.
Qed.

Lemma anchored_spec (ad : Adapter Elem) e :
  anchored ad e = true <-> e = PLACEHOLDER_ELEMENT \/ is_Some (getParent ad e).
Proof.
  unfold anchored, PLACEHOLDER_ELEMENT.
  destruct e; try (split; [intros _; left; reflexivity | reflexivity]);
    (destruct (getParent ad _) as [p |];
     [ split; [intros _; right; eexists; reflexivity | reflexivity]
     | split; [discriminate | intros [E | [p E]]; discriminate] ]).
Qed.

Lemma hasContext_spec (ad : Adapter Elem) context h :
  hasContext ad context h = true <->
  exists c xs, context = Some c /\ elements c h = Some xs /\ xs <> [] /\
    forall e, In e xs -> e = PLACEHOLDER_ELEMENT \/ is_Some (getParent ad e).
Proof.
  unfold hasContext. split.
  - destruct context as [c |]; [| discriminate].
    destruct (elements c h) as [xs |] eqn:E; [| discriminate].
    rewrite andb_true_iff, negb_true_iff, Nat.eqb_neq, forallb_forall.
    intros [Hlen Hall]. exists c, xs.
    split; [reflexivity | split; [exact E | split]].
    + intros ->. apply Hlen. reflexivity.
    + intros e He. apply anchored_spec, Hall, He.
  - intros (c & xs & -> & -> & Hne & Hall).
    rewrite andb_true_iff, negb_true_iff, Nat.eqb_neq, forallb_forall. split.
    + destruct xs; [contradiction | discriminate].
    + intros e He. apply anchored_spec, Hall, He.
Qed.

(** C9.  A context is present exactly when the context is an array, is
    non-empty, and each member is the placeholder or has a parent per the
    adapter.  A group that does not start with a non-descendant traversal
    gets the descendant marker and then [:scope] prepended when a context
    is present and no [:scope] occurs in it at any depth, and is left
    unchanged otherwise. *)
Theorem absolutize_implicit_group token (options : InternalOptions) context h i t :
  token !! i = Some t ->
  ~ startsExplicit t ->
  (hasContext (adapter options) context h = true <->
   exists c xs, context = Some c /\ elements c h = Some xs /\ xs <> [] /\
     forall e, In e xs ->
       e = PLACEHOLDER_ELEMENT \/ is_Some (getParent (adapter options) e)) /\
  (hasContext (adapter options) context h = true -> ~ ScopeInGroup t ->
   absolutize token options context h !! i =
   Some (SCOPE_TOKEN :: DESCENDANT_TOKEN :: t)) /\
  (hasContext (adapter options) context h = false \/ ScopeInGroup t ->
   absolutize token options context h !! i = Some t).
Proof.
  intros Ht Hn. split; [apply hasContext_spec |].
  rewrite absolutize_lookup, Ht. simpl.
  rewrite (absolutize_group_implicit _ _ Hn). split.
  - intros -> Hs. rewrite <- some_includesScopePseudo in Hs.
    destruct (existsb includesScopePseudo t); [contradiction Hs; reflexivity |].
    reflexivity.
  - intros [-> | Hs]; [reflexivity |].
    apply some_includesScopePseudo in Hs. rewrite Hs, andb_false_r. reflexivity.
Qed.

(** ** [compileToken] *)

Lemma adjustRules_flag isArrayContext rules :
  snd (adjustRules isArrayContext rules) = true <-> siblingAfterScope rules.
Proof.
  unfold siblingAfterScope. split.
  - destruct rules as [| first [| second rest]]; simpl; try discriminate.
    destruct (isScopePseudo first) eqn:Hs; simpl; [| discriminate].
    destruct (isArrayContext && String.eqb (type second) "descendant");
      simpl; [discriminate |].
    destruct (String.eqb (type second) "adjacent" || String.eqb (type second) "sibling")
      eqn:Hk; simpl; [| discriminate].
    intros _. exists first, second, rest. split; [reflexivity | split; [exact Hs |]].
    apply orb_true_iff in Hk. destruct Hk as [Hk | Hk];
      apply String.eqb_eq in Hk; auto.
  - intros (first & second & rest & -> & Hs & Hk). simpl. rewrite Hs. simpl.
    assert (Hd : String.eqb (type second) "descendant" = false).
    { apply String.eqb_neq. destruct Hk as [-> | ->]; discriminate. }
    rewrite Hd, andb_false_r.
    assert (Ha : String.eqb (type second) "adjacent" || String.eqb (type second) "sibling" = true).
    { apply orb_true_iff. destruct Hk as [-> | ->]; [left | right]; reflexivity. }
    rewrite Ha. reflexivity.
Qed.

Lemma adjustRules_not_array rules : fst (adjustRules false rules) = rules.
Proof.
  destruct rules as [| first [| second rest]]; simpl; try reflexivity.
  destruct (negb (isScopePseudo first)); simpl; [reflexivity |].
  destruct (String.eqb (type second) "adjacent" || String.eqb (type second) "sibling");
    reflexivity.
Qed.

Lemma adjustRules_array first second rest :
  isScopePseudo first = true -> type second = "descendant" ->
  fst (adjustRules true (first :: second :: rest)) =
  first :: FLEXIBLE_DESCENDANT_TOKEN :: rest.
Proof. intros Hs Hd. simpl. rewrite Hs, Hd. reflexivity. Qed.

(** The [map] of [compileToken] compiles the adjusted groups in order and
    sets the flag when some group has a sibling after [:scope]. *)
Lemma map_rules_spec isArrayContext (options : InternalOptions) context token b h :
  map_rules isArrayContext options context token b h =
  match mapM (fun rules => compileRules rules options context)
             (List.map (fun rules => fst (adjustRules isArrayContext rules)) token) h with
  | inl e => inl e
  | inr (qs, h') =>
      inr ((qs, existsb (fun rules => snd (adjustRules isArrayContext rules)) token || b), h')
  end.
Proof.
  revert b h. induction token as [| rules token IH]; intros b h; simpl.
  - reflexivity.
  - destruct (adjustRules isArrayContext rules) as [rules' set]. simpl.
    unfold bind at 1 3.
    destruct (compileRules rules' options context h) as [e | [q h1]]; [reflexivity |].
    unfold bind. rewrite IH.
    destruct (mapM _ _ h1) as [e | [qs h2]]; [reflexivity |].
    unfold ret. simpl. rewrite orb_assoc, (orb_comm set). reflexivity.
Qed.

Lemma compileToken_unfold token (options : InternalOptions) context h :
  compileToken token options context h =
  match mapM (fun rules => compileRules rules options (effectiveContext options context))
             (compiledGroups token options context h) h with
  | inl e => inl e
  | inr (qs, h') =>
      inr ({| func := fold_left reduceRules qs falseFunc;
              shouldTestNextSiblings :=
                Some (existsb (fun rules => snd (adjustRules (isArray context) rules))
                        (prepared token options context h)) |}, h')
  end.
Proof.
  unfold compileToken, compiledGroups, bind. rewrite map_rules_spec.
  destruct (mapM _ _ h) as [e | [qs h']]; [reflexivity |].
  unfold ret. simpl. rewrite orb_false_r. reflexivity.
Qed.

Lemma compileToken_flag token (options : InternalOptions) context h q h' :
  compileToken token options context h = inr (q, h') ->
  exists b, shouldTestNextSiblings q = Some b /\
    (b = true <->
     exists rules, In rules (prepared token options context h) /\ siblingAfterScope rules).
Proof.
  rewrite compileToken_unfold.
  destruct (mapM _ _ h) as [e | [qs h1]]; [discriminate |].
  intros H. injection H as <- _. simpl. eexists. split; [reflexivity |].
  rewrite existsb_exists.
  split; intros (rules & Hin & Hr); exists rules; split; try exact Hin;
    apply (adjustRules_flag (isArray context)); exact Hr.
Qed.

(** C2, as the code has it.  The function returned by [compileUnsafe]
    (that is, by [compileToken]) carries [shouldTestNextSiblings], true
    exactly when some group, as it stands after filtering, sorting and
    absolutizing, has a sibling or adjacent traversal as second node right
    after a leading [:scope]; the function returned by [compile] is the
    [base] closure of [wrap] and carries no such property. *)
Theorem shouldTestNextSiblings_spec selector (options : InternalOptions) context h q h' :
  (compileUnsafe selector options context h = inr (q, h') ->
   exists token b,
     parse selector options = inr token /\
     shouldTestNextSiblings q = Some b /\
     (b = true <->
      exists rules, In rules (prepared token options context h) /\
                    siblingAfterScope rules)) /\
  (compile selector options context h = inr (q, h') ->
   shouldTestNextSiblings q = None /\
   exists next, compileUnsafe selector options context h = inr (next, h') /\
                func q = base (adapter options) (func next)).
Proof.
  split.
  - unfold compileUnsafe. destruct (parse selector options) as [e | token];
      [discriminate |].
    intros H. destruct (compileToken_flag _ _ _ _ _ _ H) as (b & Hb & Hiff).
    exists token, b. auto.
  - unfold compile. intros H. apply bind_inv in H.
    destruct H as (next & h1 & Hnext & H). injection H as <- <-.
    split; [reflexivity |]. exists next. split; [exact Hnext | reflexivity].
Qed.

(** C10.  Whether a group [:scope descendant ...] is rewritten to the
    flexible-descendant token depends only on [Array.isArray] of the
    context argument: the groups handed to [compileRules] are the
    prepared groups themselves when the argument is absent (also when
    [options.context] holds an array) or is no array, and have the
    flexible token in second place, whatever [options.context] is, when
    the argument is an array. *)
Theorem flexible_descendant_by_argument token (options : InternalOptions) context h :
  compileToken token options context h =
    match mapM (fun rules => compileRules rules options (effectiveContext options context))
               (compiledGroups token options context h) h with
    | inl e => inl e
    | inr (qs, h') =>
        inr ({| func := fold_left reduceRules qs falseFunc;
                shouldTestNextSiblings :=
                  Some (existsb (fun rules => snd (adjustRules (isArray context) rules))
                          (prepared token options context h)) |}, h')
    end /\
  compiledGroups token options None h = prepared token options None h /\
  (isArray context = false ->
   compiledGroups token options context h = prepared token options context h) /\
  (isArray context = true ->
   forall i first second rest,
     prepared token options context h !! i = Some (first :: second :: rest) ->
     isScopePseudo first = true -> type second = "descendant" ->
     compiledGroups token options context h !! i =
     Some (first :: FLEXIBLE_DESCENDANT_TOKEN :: rest)).
Proof.
  assert (Hid : forall l : list (list Selector),
            List.map (fun rules => fst (adjustRules false rules)) l = l).
  { induction l as [| rules l IH]; simpl; [reflexivity |].
    rewrite adjustRules_not_array, IH. reflexivity. }
  split; [apply compileToken_unfold |]. split; [| split].
  - unfold compiledGroups. simpl. apply Hid.
  - intros Hf. unfold compiledGroups. rewrite Hf. apply Hid.
  - intros Ht i first second rest Hi Hs Hd.
    unfold compiledGroups. rewrite lookup_map, Hi, Ht. simpl.
    rewrite Hs, Hd. reflexivity.
Qed.

(** ** The sentinel [trueFunc] *)

Lemma fold_reduceRules_true (qs : list CompiledQuery) :
  fold_left reduceRules qs trueFunc = trueFunc.
Proof.
  induction qs as [| q qs IH]; simpl; [reflexivity |].
  rewrite reduceRules_true_l. exact IH.
Qed.

Lemma fold_reduceRules_In_true (qs : list CompiledQuery) a :
  In trueFunc qs -> fold_left reduceRules qs a = trueFunc.
Proof.
  revert a. induction qs as [| q qs IH]; intros a; simpl; [contradiction |].
  intros [-> | Hin].
  - rewrite reduceRules_true_r. apply fold_reduceRules_true.
  - apply IH, Hin.
Qed.

(** C5, as the code has it.  When some group's rule chain compiles to
    [trueFunc], [compileToken] returns [trueFunc] itself; the function
    that [compile] then returns is the [base] closure of [wrap] around
    it, never a sentinel. *)
Theorem trueFunc_identity token (options : InternalOptions) context h qs h' :
  mapM (fun rules => compileRules rules options (effectiveContext options context))
       (compiledGroups token options context h) h = inr (qs, h') ->
  In trueFunc qs ->
  (exists q, compileToken token options context h = inr (q, h') /\ func q = trueFunc) /\
  (forall selector, parse selector options = inr token ->
     exists q next,
       compileUnsafe selector options context h = inr (next, h') /\
       func next = trueFunc /\
       compile selector options context h = inr (q, h') /\
       func q = base (adapter options) trueFunc /\
       func q <> trueFunc).
Proof.
  intros Hmap Hin.
  assert (Htok : exists q, compileToken token options context h = inr (q, h') /\
                           func q = trueFunc).
  { rewrite compileToken_unfold, Hmap. eexists. split; [reflexivity |].
    simpl. apply fold_reduceRules_In_true, Hin. }
  split; [exact Htok |].
  intros selector Hparse. destruct Htok as (next & Hnext & Htrue).
  exists {| func := wrap (func next) options; shouldTestNextSiblings := None |}, next.
  assert (Hun : compileUnsafe selector options context h = inr (next, h')).
  { unfold compileUnsafe. rewrite Hparse. exact Hnext. }
  split; [exact Hun |]. split; [exact Htrue |]. split.
  - unfold compile. rewrite (bind_inr _ _ _ _ _ Hun). reflexivity.
  - simpl. unfold wrap. rewrite Htrue. split; [reflexivity | discriminate].
Qed.

(** ** [filters.not] *)

Lemma derived_eq (options options' : InternalOptions) :
  adapter options' = adapter options ->
  truthy (xmlMode options') = truthy (xmlMode options) ->
  truthy (strict options') = truthy (strict options) ->
  derived options' = derived options.
Proof. intros Ha Hx Hs. unfold derived. rewrite Ha, Hx, Hs. reflexivity. Qed.

Lemma some_containsTraversal token :
  existsb containsTraversal token = true <->
  exists g t, In g token /\ In t g /\ isTraversal t = true.
Proof.
  rewrite existsb_exists. unfold containsTraversal. split.
  - intros (g & Hg & H). apply existsb_exists in H. destruct H as (t & Ht & H).
    exists g, t. auto.
  - intros (g & t & Hg & Ht & H). exists g. split; [exact Hg |].
    apply existsb_exists. exists t. auto.
Qed.

(** The strict-mode test of [filters.not]. *)
Lemma strict_test token :
  Nat.ltb 1 (length token) || existsb containsTraversal token = true <->
  1 < length token \/ exists g t, In g token /\ In t g /\ isTraversal t = true.
Proof. rewrite orb_true_iff, Nat.ltb_lt, some_containsTraversal. reflexivity. Qed.

Lemma filters_not_strict next token (options : InternalOptions) context h :
  truthy (strict options) = true ->
  Nat.ltb 1 (length token) || existsb containsTraversal token = true ->
  filters_not next token options context h = inl StrictModeViolation.
Proof.
  intros Hs Hc. unfold filters_not. simpl. destruct (truthy (strict options)).
  - simpl. rewrite Hc. reflexivity.
  - discriminate.
Qed.

Lemma filters_not_compile next token (options : InternalOptions) context h :
  truthy (strict options) &&
    (Nat.ltb 1 (length token) || existsb containsTraversal token) = false ->
  filters_not next token options context h =
  match compileToken token (derived options) context h with
  | inl e => inl e
  | inr (q, h') =>
      inr (if is_falseFunc (func q) then next
           else if is_trueFunc (func q) then falseFunc
           else not_ (func q) next, h')
  end.
Proof.
  intros Hc. unfold filters_not.
  replace (truthy (strict (derived options))) with (truthy (strict options))
    by (simpl; destruct (truthy (strict options)); reflexivity).
  rewrite Hc. unfold bind.
  destruct (compileToken token (derived options) context h) as [e | [q h']];
    [reflexivity |].
  destruct (is_falseFunc (func q)); [reflexivity |].
  destruct (is_trueFunc (func q)); reflexivity.
Qed.

(** C3, as the code has it.  [filters.not] compiles its argument under
    options made of [xmlMode], [strict] and [adapter] alone: the derived
    options have neither [rootFunc] nor a [context] field, and the result
    is the same for any outer options that agree on those three.  The
    context argument itself is not dropped: it is handed on, as it is, to
    the nested [compileToken]. *)
Theorem filters_not_options next token (options options' : InternalOptions) ctx h :
  adapter options' = adapter options ->
  truthy (xmlMode options') = truthy (xmlMode options) ->
  truthy (strict options') = truthy (strict options) ->
  filters_not next token options' ctx h = filters_not next token options ctx h /\
  rootFunc (derived options) = None /\
  context (derived options) = None /\
  adapter (derived options) = adapter options /\
  xmlMode (derived options) = Some (truthy (xmlMode options)) /\
  strict (derived options) = Some (truthy (strict options)) /\
  (truthy (strict options) &&
     (Nat.ltb 1 (length token) || existsb containsTraversal token) = false ->
   filters_not next token options ctx h =
   match compileToken token (derived options) ctx h with
   | inl e => inl e
   | inr (q, h') =>
       inr (if is_falseFunc (func q) then next
            else if is_trueFunc (func q) then falseFunc
            else not_ (func q) next, h')
   end).
Proof.
  intros Ha Hx Hs. split.
  - unfold filters_not. rewrite (derived_eq _ _ Ha Hx Hs). reflexivity.
  - repeat (split; [reflexivity |]). apply filters_not_compile.
Qed.

(** C4, as the code has it.  Under [strict], [filters.not] throws the
    strict-mode error, before compiling anything, when its argument has
    more than one group or some group has a traversal among its nodes.
    In every other case, that is without [strict] or with an argument
    that passes the test, it has no failure of its own: it fails exactly
    when the nested compilation of the argument fails, with that error,
    which can itself be the strict-mode error of a [:not] inside the
    argument, and it succeeds exactly when the nested compilation
    does. *)
Theorem filters_not_strict_check next token (options : InternalOptions) context h :
  (truthy (strict options) = true ->
   (1 < length token \/ exists g t, In g token /\ In t g /\ isTraversal t = true) ->
   filters_not next token options context h = inl StrictModeViolation) /\
  (truthy (strict options) = false \/
   ~ (1 < length token \/ exists g t, In g token /\ In t g /\ isTraversal t = true) ->
   (forall e,
      filters_not next token options context h = inl e <->
      compileToken token (derived options) context h = inl e) /\
   ((exists r, filters_not next token options context h = inr r) <->
    (exists r, compileToken token (derived options) context h = inr r))).
Proof.
  split.
  - intros Hs Hc. apply filters_not_strict; [exact Hs | apply strict_test, Hc].
  - intros Hpass.
    assert (Hcheck : truthy (strict options) &&
                       (Nat.ltb 1 (length token) || existsb containsTraversal token)
                     = false).
    { destruct Hpass as [-> | Hn]; [reflexivity |].
      destruct (Nat.ltb 1 (length token) || existsb containsTraversal token) eqn:Hc.
      - contradiction Hn. apply strict_test, Hc.
      - apply andb_false_r. }
    rewrite (filters_not_compile _ _ _ _ _ Hcheck).
    destruct (compileToken token (derived options) context h) as [e' | [q h']].
    + split.
      * intros e. split; intros H; injection H as ->; reflexivity.
      * split; intros [r H]; discriminate H.
    + split.
      * intros e. split; discriminate.
      * split; intros _; eexists; reflexivity.
Qed.

(** ** [filters.has] *)

(** C8.  [filters.has] allocates its one-slot context, a fresh cell
    holding the placeholder, exactly when its argument contains a
    traversal, and compiles the argument with it (with no context
    otherwise).  A [falseFunc] argument gives [falseFunc]; a [trueFunc]
    argument gives a predicate that holds when the element has a tag
    child and the continuation holds; any other argument gives a
    predicate that calls the continuation and then, having written the
    element into the slot if there is one, asks [existsOne] over the
    element's children with the argument guarded by [isTag]. *)
Theorem filters_has_spec next token (options : InternalOptions) h q h1 :
  let traversal := existsb containsTraversal token in
  let ad := adapter options in
  compileToken token (derived options)
    (if traversal then Some (VSlot (length h)) else None)
    (if traversal then h ++ [PLACEHOLDER_ELEMENT] else h) = inr (q, h1) ->
  (traversal = true <-> exists g t, In g token /\ In t g /\ isTraversal t = true) /\
  exists result,
    filters_has next token options h = inr (result, h1) /\
    (func q = falseFunc -> result = falseFunc) /\
    (func q = trueFunc ->
     forall elem s,
       call result elem s =
       if existsb (isTag ad) (getChildren ad elem) then call next elem s
       else (false, s)) /\
    (func q <> falseFunc -> func q <> trueFunc ->
     forall elem s,
       call result elem s =
       if fst (call next elem s) then
         existsOne ad
           (fun e s' => if isTag ad e then call (func q) e s' else (false, s'))
           (getChildren ad elem)
           (if traversal then <[length h := VElem elem]> (snd (call next elem s))
            else snd (call next elem s))
       else (false, snd (call next elem s))).
Proof.
  intros traversal ad Hq. split; [apply some_containsTraversal |].
  unfold filters_has. fold traversal. fold ad.
  destruct traversal; unfold bind, alloc, ret; simpl; simpl in Hq; rewrite Hq.
  - destruct (func q) eqn:Ef; simpl;
      (eexists; split; [reflexivity |]; split; [| split]);
      try (intros; congruence); try reflexivity;
      try (intros _ _ elem s; simpl; destruct (call next elem s) as [[|] s1]; reflexivity).
  - destruct (func q) eqn:Ef; simpl;
      (eexists; split; [reflexivity |]; split; [| split]);
      try (intros; congruence); try reflexivity;
      try (intros _ _ elem s; simpl; destruct (call next elem s) as [[|] s1]; reflexivity).
Qed.

End Properties.

(** * Further properties of [compile.ts] *)

Section Further.

Context {Elem ExtCode : Type} `{!Imports Elem ExtCode}.

Abbreviation Value := (Value Elem).
Abbreviation Heap := (Heap Elem).
Abbreviation CompiledQuery := (CompiledQuery Elem ExtCode).
Abbreviation InternalOptions := (InternalOptions Elem ExtCode).
Abbreviation Query := (Query Elem ExtCode).
Abbreviation M := (M Elem).

(** ** The OR-reduction of the groups *)

Lemma reduceRules_falseFunc_iff (a b : CompiledQuery) :
  reduceRules a b = falseFunc <-> a = falseFunc /\ b = falseFunc.
Proof.
  split.
  - destruct a, b; simpl; intros H; try discriminate H; auto.
  - intros [-> ->]. reflexivity.
Qed.

Lemma reduceRules_trueFunc_iff (a b : CompiledQuery) :
  reduceRules a b = trueFunc <-> a = trueFunc \/ b = trueFunc.
Proof.
  split.
  - destruct a, b; simpl; intros H; try discriminate H; auto.
  - intros [-> | ->]; [apply reduceRules_true_l | apply reduceRules_true_r].
Qed.

Lemma fold_reduceRules_falseFunc_iff (qs : list CompiledQuery) a :
  fold_left reduceRules qs a = falseFunc <->
  a = falseFunc /\ forall q, In q qs -> q = falseFunc.
Proof.
  revert a. induction qs as [| q qs IH]; intros a; simpl.
  - split; [intros ->; split; [reflexivity | contradiction] | intros [-> _]; reflexivity].
  - rewrite IH, reduceRules_falseFunc_iff. split.
    + intros [[-> ->] Hall]. split; [reflexivity |].
      intros x [<- | Hx]; [reflexivity | apply Hall, Hx].
    + intros [-> Hall]. split; [split; [reflexivity | apply Hall; left; reflexivity] |].
      intros x Hx. apply Hall. right. exact Hx.
Qed.

Lemma fold_reduceRules_trueFunc_iff (qs : list CompiledQuery) a :
  fold_left reduceRules qs a = trueFunc <-> a = trueFunc \/ In trueFunc qs.
Proof.
  revert a. induction qs as [| q qs IH]; intros a; simpl.
  - split; [intros ->; left; reflexivity | intros [-> | []]; reflexivity].
  - rewrite IH, reduceRules_trueFunc_iff. split.
    + intros [[-> | ->] | Hin]; auto.
    + intros [-> | [<- | Hin]]; auto.
Qed.

(** One step of the reduction either is [trueFunc] or behaves as the
    short-circuit OR of its operands, heap included. *)
Lemma reduceRules_call (a b : CompiledQuery) elem h :
  reduceRules a b = trueFunc \/
  call (reduceRules a b) elem h =
  (let '(r, h1) := call a elem h in if r then (true, h1) else call b elem h1).
Proof.
  unfold reduceRules.
  destruct (is_falseFunc b) eqn:Ebf.
  { apply is_falseFunc_spec in Ebf. subst b. right. simpl.
    destruct (call a elem h) as [[|] h1]; reflexivity. }
  destruct (is_trueFunc a) eqn:Eat.
  { apply is_trueFunc_spec in Eat. subst a. left. reflexivity. }
  simpl. destruct (is_falseFunc a) eqn:Eaf.
  { apply is_falseFunc_spec in Eaf. subst a. right. reflexivity. }
  destruct (is_trueFunc b) eqn:Ebt.
  { apply is_trueFunc_spec in Ebt. subst b. left. reflexivity. }
  right. reflexivity.
Qed.

Lemma fold_reduceRules_call (qs : list CompiledQuery) a elem h :
  fst (call (fold_left reduceRules qs a) elem h) = fst (callSome (a :: qs) elem h).
Proof.
  revert a. induction qs as [| q qs IH]; intros a.
  - simpl. destruct (call a elem h) as [[|] h1]; reflexivity.
  - change (fold_left reduceRules (q :: qs) a)
      with (fold_left reduceRules qs (reduceRules a q)).
    rewrite IH.
    destruct (reduceRules_call a q elem h) as [Ht | Hc].
    + rewrite Ht. apply reduceRules_trueFunc_iff in Ht. simpl.
      destruct Ht as [-> | ->]; simpl.
      * reflexivity.
      * destruct (call a elem h) as [[|] h1]; reflexivity.
    + simpl. rewrite Hc.
      destruct (call a elem h) as [[|] h1]; [reflexivity |].
      destruct (call q elem h1) as [[|] h2]; reflexivity.
Qed.

(** X1.  The function [compileToken] returns answers as the
    short-circuit OR of the group predicates, called in the order of the
    groups: the sentinel shortcuts of [reduceRules] never change the
    answer. *)
Theorem compileToken_some token (options : InternalOptions) context h qs h' :
  mapM (fun rules => compileRules rules options (effectiveContext options context))
       (compiledGroups token options context h) h = inr (qs, h') ->
  exists q,
    compileToken token options context h = inr (q, h') /\
    forall elem s, fst (call (func q) elem s) = fst (callSome qs elem s).
Proof.
  intros Hmap. rewrite compileToken_unfold, Hmap.
  eexists. split; [reflexivity |]. intros elem s. simpl func.
  rewrite fold_reduceRules_call. reflexivity.
Qed.

(** X2.  The function [compileToken] returns is [trueFunc] exactly when
    some group compiled to [trueFunc], is [falseFunc] exactly when every
    group compiled to [falseFunc], and is the predicate of the group
    itself, with no closure around it, when there is one group. *)
Theorem compileToken_sentinels token (options : InternalOptions) context h qs h' :
  mapM (fun rules => compileRules rules options (effectiveContext options context))
       (compiledGroups token options context h) h = inr (qs, h') ->
  exists q,
    compileToken token options context h = inr (q, h') /\
    (func q = trueFunc <-> In trueFunc qs) /\
    (func q = falseFunc <-> forall x, In x qs -> x = falseFunc) /\
    (forall x, qs = [x] -> func q = x).
Proof.
  intros Hmap. rewrite compileToken_unfold, Hmap.
  eexists. split; [reflexivity |]. simpl func. split; [| split].
  - rewrite fold_reduceRules_trueFunc_iff. split; [| auto].
    intros [H | H]; [discriminate H | exact H].
  - rewrite fold_reduceRules_falseFunc_iff. split; [intros [_ H]; exact H | auto].
  - intros x ->. simpl. apply reduceRules_false_l.
Qed.

(** ** Empty groups, empty lists, failing groups *)

Lemma filter_idempotent {A} (f : A -> bool) (l : list A) :
  List.filter f (List.filter f l) = List.filter f l.
Proof.
  induction l as [| a l IH]; simpl; [reflexivity |].
  destruct (f a) eqn:E; simpl; [rewrite E, IH |]; auto.
Qed.

Lemma filter_all_empty (token : list (list Selector)) :
  (forall g, In g token -> g = []) ->
  List.filter (fun t => Nat.ltb 0 (length t)) token = [].
Proof.
  induction token as [| g token IH]; intros Hall; simpl; [reflexivity |].
  rewrite (Hall g (or_introl eq_refl)). simpl.
  apply IH. intros g' Hg'. apply Hall. right. exact Hg'.
Qed.

Lemma prepared_filter token (options : InternalOptions) context h :
  prepared (List.filter (fun t => Nat.ltb 0 (length t)) token) options context h =
  prepared token options context h.
Proof. unfold prepared. rewrite filter_idempotent. reflexivity. Qed.

Lemma compileToken_all_empty token (options : InternalOptions) context h :
  (forall g, In g token -> g = []) ->
  compileToken token options context h =
  inr ({| func := falseFunc; shouldTestNextSiblings := Some false |}, h).
Proof.
  intros Hall. unfold compileToken, prepared.
  rewrite (filter_all_empty token Hall). reflexivity.
Qed.

(** X3.  Empty groups are dropped before anything else: the result of
    [compileToken] is the same with and without them, and a list with no
    non-empty group compiles, whatever the options and the context, to
    [falseFunc] with the flag false, touching neither the builders nor
    the heap. *)
Theorem compileToken_empty_groups token (options : InternalOptions) context h :
  compileToken (List.filter (fun t => Nat.ltb 0 (length t)) token) options context h =
    compileToken token options context h /\
  compileToken ([] :: token) options context h = compileToken token options context h /\
  ((forall g, In g token -> g = []) ->
   compileToken token options context h =
   inr ({| func := falseFunc; shouldTestNextSiblings := Some false |}, h)).
Proof.
  split; [| split].
  - unfold compileToken. rewrite prepared_filter. reflexivity.
  - reflexivity.
  - apply compileToken_all_empty.
Qed.

Lemma mapM_fails {A B} (f : A -> M B) l1 x l2 h bs h1 e :
  mapM f l1 h = inr (bs, h1) -> f x h1 = inl e ->
  mapM f (l1 ++ x :: l2) h = inl e.
Proof.
  revert h bs. induction l1 as [| a l1 IH]; intros h bs Hl Hx; simpl in *.
  - injection Hl as _ <-. unfold bind. rewrite Hx. reflexivity.
  - unfold bind in *. destruct (f a h) as [e' | [b h2]]; [discriminate |].
    destruct (mapM f l1 h2) as [e' | [bs' h3]] eqn:E; [discriminate |].
    injection Hl as _ <-. rewrite (IH h2 bs' E Hx). reflexivity.
Qed.

(** X4.  A group that fails to compile makes [compileToken] fail with
    the same error, also when an earlier group already compiled to
    [trueFunc]: every group is compiled before the results are
    reduced. *)
Theorem compileToken_group_fails token (options : InternalOptions) context h
    before rules after qs h1 e :
  compiledGroups token options context h = before ++ rules :: after ->
  mapM (fun rules => compileRules rules options (effectiveContext options context))
       before h = inr (qs, h1) ->
  compileRules rules options (effectiveContext options context) h1 = inl e ->
  compileToken token options context h = inl e.
Proof.
  intros Hsplit Hbefore Hfail. rewrite compileToken_unfold, Hsplit.
  rewrite (mapM_fails _ _ _ _ _ _ _ _ Hbefore Hfail). reflexivity.
Qed.

(** X5.  A rule whose type has no builder in [Rules] makes the chain
    fail with the error naming that type, provided the chain before it
    did not compile to [falseFunc]; the rules after it are not
    reached. *)
Theorem compileRules_unsupported pre rule rest (options : InternalOptions) context
    h q h1 :
  compileRules pre options context h = inr (q, h1) ->
  q <> falseFunc ->
  Rules !! type rule = None ->
  compileRules (pre ++ rule :: rest) options context h =
  inl (UnsupportedSelectorKind (type rule)).
Proof.
  unfold compileRules. intros Hpre Hq Hnone.
  rewrite reduce_rules_app. rewrite (bind_inr _ _ _ _ _ Hpre). simpl.
  unfold bind, compileRule. rewrite (is_falseFunc_false q Hq).
  unfold Builder in *. rewrite Hnone. reflexivity.
Qed.

(** ** More on [absolutize] *)

Lemma absolutize_group_cases hc t :
  absolutize_group hc t = t \/
  absolutize_group hc t = SCOPE_TOKEN :: t \/
  absolutize_group hc t = SCOPE_TOKEN :: DESCENDANT_TOKEN :: t.
Proof.
  unfold absolutize_group.
  destruct (match t with [] => false | _ => _ end); [auto |].
  destruct (hc && negb (existsb includesScopePseudo t)); auto.
Qed.

(** X6.  [absolutize] keeps the number and the order of the groups and
    never removes, replaces or reorders a node: each group afterwards is
    the group before with nothing, [:scope], or [:scope] and the
    descendant token in front. *)
Theorem absolutize_prepends token (options : InternalOptions) context h :
  length (absolutize token options context h) = length token /\
  forall i t, token !! i = Some t ->
    exists front,
      absolutize token options context h !! i = Some (front ++ t) /\
      (front = [] \/ front = [SCOPE_TOKEN] \/
       front = [SCOPE_TOKEN; DESCENDANT_TOKEN]).
Proof.
  split; [apply List.length_map |].
  intros i t Ht. rewrite absolutize_lookup, Ht. simpl.
  destruct (absolutize_group_cases (hasContext (adapter options) context h) t)
    as [-> | [-> | ->]].
  - exists []. auto.
  - exists [SCOPE_TOKEN]. auto.
  - exists [SCOPE_TOKEN; DESCENDANT_TOKEN]. auto.
Qed.

Lemma absolutize_group_idempotent hc t :
  isTraversal SCOPE_TOKEN = false ->
  absolutize_group hc (absolutize_group hc t) = absolutize_group hc t.
Proof.
  intros Hscope.
  assert (Hfix : forall rest,
            absolutize_group hc (SCOPE_TOKEN :: rest) = SCOPE_TOKEN :: rest).
  { intros rest. unfold absolutize_group. rewrite Hscope. simpl.
    rewrite andb_false_r. reflexivity. }
  destruct (match t with
            | t0 :: _ => isTraversal t0 && negb (String.eqb (type t0) "descendant")
            | [] => false
            end) eqn:E1.
  { assert (H : absolutize_group hc t = SCOPE_TOKEN :: t)
      by (unfold absolutize_group; rewrite E1; reflexivity).
    rewrite H. apply Hfix. }
  destruct (hc && negb (existsb includesScopePseudo t)) eqn:E2.
  { assert (H : absolutize_group hc t = SCOPE_TOKEN :: DESCENDANT_TOKEN :: t)
      by (unfold absolutize_group; rewrite E1, E2; reflexivity).
    rewrite H. apply Hfix. }
  assert (H : absolutize_group hc t = t)
    by (unfold absolutize_group; rewrite E1, E2; reflexivity).
  rewrite H. exact H.
Qed.

(** X7.  When the [pseudo] type is not a traversal, absolutizing twice
    with the same context is absolutizing once: a group that was
    anchored is not anchored again. *)
Theorem absolutize_idempotent token (options : InternalOptions) context h :
  isTraversal SCOPE_TOKEN = false ->
  absolutize (absolutize token options context h) options context h =
  absolutize token options context h.
Proof.
  intros Hscope. unfold absolutize. rewrite List.map_map.
  apply List.map_ext. intros t. apply absolutize_group_idempotent, Hscope.
Qed.

Lemma absolutize_group_anchored t :
  existsb includesScopePseudo (absolutize_group true t) = true.
Proof.
  unfold absolutize_group.
  destruct (match t with [] => false | _ => _ end); [reflexivity |].
  simpl. destruct (existsb includesScopePseudo t) eqn:E; [exact E | reflexivity].
Qed.

(** X8.  When a context is present, every group contains a [:scope]
    pseudo-class after [absolutize], its own or the one prepended. *)
Theorem absolutize_anchors token (options : InternalOptions) context h g :
  hasContext (adapter options) context h = true ->
  In g (absolutize token options context h) ->
  ScopeInGroup g.
Proof.
  intros Hc Hin. unfold absolutize in Hin. rewrite Hc in Hin.
  apply List.in_map_iff in Hin. destruct Hin as (t & <- & _).
  apply some_includesScopePseudo, absolutize_group_anchored.
Qed.

(** ** The recursive pseudo-classes *)

(** X9.  Whatever shortcut [filters.not] takes, the function it returns
    holds of an element exactly when the compiled argument does not and
    the continuation, called after it, does; it is the continuation
    itself when the argument is [falseFunc] and [falseFunc] when the
    argument is [trueFunc]. *)
Theorem filters_not_sound next token (options : InternalOptions) context h q h1 :
  truthy (strict options) &&
    (Nat.ltb 1 (length token) || existsb containsTraversal token) = false ->
  compileToken token (derived options) context h = inr (q, h1) ->
  exists result,
    filters_not next token options context h = inr (result, h1) /\
    (func q = falseFunc -> result = next) /\
    (func q = trueFunc -> result = falseFunc) /\
    forall elem s,
      fst (call result elem s) =
      negb (fst (call (func q) elem s)) &&
      fst (call next elem (snd (call (func q) elem s))).
Proof.
  intros Hcheck Hq. rewrite (filters_not_compile _ _ _ _ _ Hcheck), Hq.
  eexists. split; [reflexivity |].
  destruct (is_falseFunc (func q)) eqn:Ef.
  { apply is_falseFunc_spec in Ef. rewrite Ef.
    split; [reflexivity |]. split; [discriminate |].
    intros elem s. reflexivity. }
  destruct (is_trueFunc (func q)) eqn:Et.
  { apply is_trueFunc_spec in Et. rewrite Et.
    split; [discriminate |]. split; [reflexivity |].
    intros elem s. reflexivity. }
  split; [intros E; rewrite E in Ef; discriminate Ef |].
  split; [intros E; rewrite E in Et; discriminate Et |].
  intros elem s. simpl. destruct (call (func q) elem s) as [[|] s1]; reflexivity.
Qed.

Lemma some_containsTraversal_empty (token : list (list Selector)) :
  (forall g, In g token -> g = []) -> existsb containsTraversal token = false.
Proof.
  induction token as [| g token IH]; intros Hall; simpl; [reflexivity |].
  rewrite (Hall g (or_introl eq_refl)). simpl.
  apply IH. intros g' Hg'. apply Hall. right. exact Hg'.
Qed.

(** X10.  [filters.matches] compiles every group of its argument as a
    continuation of [next]: each chain is folded from [next] instead of
    [trueFunc], and the chains are OR-reduced.  With one group the
    result is that chain itself. *)
Theorem filters_matches_chains next token (options : InternalOptions) context h :
  let opts : InternalOptions :=
    {| xmlMode := Some (truthy (xmlMode options));
       strict := Some (truthy (strict options));
       rootFunc := Some next;
       adapter := adapter options;
       context := None |} in
  filters_matches next token options context h =
    match mapM (fun rules => reduce_rules opts (effectiveContext opts context) rules next)
               (compiledGroups token opts context h) h with
    | inl e => inl e
    | inr (qs, h') => inr (fold_left reduceRules qs falseFunc, h')
    end /\
  (forall rules, compiledGroups token opts context h = [rules] ->
     filters_matches next token options context h =
     reduce_rules opts (effectiveContext opts context) rules next h).
Proof.
  intros opts.
  assert (Heq : filters_matches next token options context h =
                match mapM (fun rules =>
                              reduce_rules opts (effectiveContext opts context) rules next)
                           (compiledGroups token opts context h) h with
                | inl e => inl e
                | inr (qs, h') => inr (fold_left reduceRules qs falseFunc, h')
                end).
  { unfold filters_matches. fold opts. unfold bind.
    rewrite compileToken_unfold.
    change (fun rules => compileRules rules opts (effectiveContext opts context))
      with (fun rules => reduce_rules opts (effectiveContext opts context) rules next).
    destruct (mapM _ _ h) as [e | [qs h']]; reflexivity. }
  split; [exact Heq |].
  intros rules Hone. rewrite Heq, Hone. simpl. unfold bind.
  destruct (reduce_rules opts (effectiveContext opts context) rules next h)
    as [e | [q h']]; [reflexivity |].
  simpl. rewrite reduceRules_false_l. reflexivity.
Qed.

(** X11.  On a selector list with no non-empty group, [filters.not]
    (its strict test passing) returns the continuation itself, and
    [filters.has] and [filters.matches] return [falseFunc]; none fails
    and none touches the heap. *)
Theorem recursive_pseudos_empty next token (options : InternalOptions) context h :
  (forall g, In g token -> g = []) ->
  (truthy (strict options) && Nat.ltb 1 (length token) = false ->
   filters_not next token options context h = inr (next, h)) /\
  filters_has next token options h = inr (falseFunc, h) /\
  filters_matches next token options context h = inr (falseFunc, h).
Proof.
  intros Hall. split; [| split].
  - intros Hcheck. rewrite filters_not_compile.
    + rewrite (compileToken_all_empty _ _ _ _ Hall). reflexivity.
    + rewrite (some_containsTraversal_empty token Hall), orb_false_r. exact Hcheck.
  - unfold filters_has. rewrite (some_containsTraversal_empty token Hall).
    unfold bind, ret. simpl.
    rewrite (compileToken_all_empty _ _ _ _ Hall). reflexivity.
  - unfold filters_matches, bind.
    rewrite (compileToken_all_empty _ _ _ _ Hall). reflexivity.
Qed.

(** X12.  [filters.has] and [filters.matches] have no strict-mode test
    and no failure of their own: each fails exactly when the nested
    compilation of its argument fails, with that error. *)
Theorem has_matches_errors next token (options : InternalOptions) context h e :
  let traversal := existsb containsTraversal token in
  (filters_has next token options h = inl e <->
   compileToken token (derived options)
     (if traversal then Some (VSlot (length h)) else None)
     (if traversal then h ++ [PLACEHOLDER_ELEMENT] else h) = inl e) /\
  (filters_matches next token options context h = inl e <->
   compileToken token
     {| xmlMode := Some (truthy (xmlMode options));
        strict := Some (truthy (strict options));
        rootFunc := Some next;
        adapter := adapter options;
        context := None |} context h = inl e).
Proof.
  intros traversal. split.
  - unfold filters_has. fold traversal.
    destruct traversal; unfold bind, alloc, ret; simpl;
      (destruct (compileToken token (derived options) _ _) as [e' | [q h1]];
       [ split; intros H; injection H as ->; reflexivity
       | split; [| discriminate];
         destruct (is_falseFunc (func q)); [discriminate |];
         destruct (is_trueFunc (func q)); discriminate ]).
  - unfold filters_matches, bind.
    destruct (compileToken token _ context h) as [e' | [q h1]].
    + split; intros H; injection H as ->; reflexivity.
    + split; discriminate.
Qed.

(** ** The entry points and the context *)

(** X13.  The function [compile] returns answers false on anything the
    adapter does not take for a tag, without calling the compiled
    selector, and answers as the function of [compileUnsafe] on tags. *)
Theorem compile_guards selector (options : InternalOptions) context h q h' :
  compile selector options context h = inr (q, h') ->
  exists next,
    compileUnsafe selector options context h = inr (next, h') /\
    forall elem s,
      (isTag (adapter options) elem = false -> call (func q) elem s = (false, s)) /\
      (isTag (adapter options) elem = true ->
       call (func q) elem s = call (func next) elem s).
Proof.
  unfold compile. intros H. apply bind_inv in H.
  destruct H as (next & h1 & Hnext & H). injection H as <- <-.
  exists next. split; [exact Hnext |].
  intros elem s. simpl. split; intros ->; reflexivity.
Qed.

(** X14.  When [options.context] is set, the context argument matters
    only through its being an array or not: two arguments that agree on
    that give the same compilation. *)
Theorem options_context_overrides token (options : InternalOptions) c context1 context2 h :
  context options = Some c ->
  isArray context1 = isArray context2 ->
  effectiveContext options context1 = Some (if isArray context1 then c else VArray [c]) /\
  compileToken token options context1 h = compileToken token options context2 h.
Proof.
  intros Hc Harr.
  assert (He : forall ctx,
            effectiveContext options ctx = Some (if isArray ctx then c else VArray [c])).
  { intros ctx. unfold effectiveContext. rewrite Hc.
    destruct (isArray ctx); reflexivity. }
  split; [apply He |].
  unfold compileToken, prepared. rewrite !He, Harr. reflexivity.
Qed.

Lemma compiledGroups_lookup token (options : InternalOptions) context h i :
  compiledGroups token options context h !! i =
  option_map
    (fun t => fst (adjustRules (isArray context)
                     (absolutize_group
                        (hasContext (adapter options)
                           (effectiveContext options context) h) t)))
    (List.map sortRules (List.filter (fun t => Nat.ltb 0 (length t)) token) !! i).
Proof.
  unfold compiledGroups, prepared, absolutize.
  set (sorted := List.map sortRules _).
  rewrite !lookup_map. destruct (sorted !! i); reflexivity.
Qed.

Lemma isScopePseudo_SCOPE_TOKEN : isScopePseudo SCOPE_TOKEN = true.
Proof. reflexivity. Qed.

(** X15.  With an array as context argument and a context present, a
    sorted group that is implicitly scoped (no leading non-descendant
    traversal, no [:scope] inside) is compiled as [:scope], the flexible
    descendant token, then the group; a group with a leading
    non-descendant traversal is compiled as [:scope] and the group, its
    traversal kept. *)
Theorem array_context_groups token (options : InternalOptions) context h i t :
  isArray context = true ->
  hasContext (adapter options) (effectiveContext options context) h = true ->
  List.map sortRules (List.filter (fun t => Nat.ltb 0 (length t)) token) !! i = Some t ->
  (~ startsExplicit t -> ~ ScopeInGroup t ->
   compiledGroups token options context h !! i =
   Some (SCOPE_TOKEN :: FLEXIBLE_DESCENDANT_TOKEN :: t)) /\
  (startsExplicit t ->
   compiledGroups token options context h !! i = Some (SCOPE_TOKEN :: t)).
Proof.
  intros Harr Hctx Ht. rewrite compiledGroups_lookup, Ht, Harr, Hctx. simpl. split.
  - intros Hn Hs. rewrite (absolutize_group_implicit _ _ Hn).
    rewrite <- some_includesScopePseudo in Hs.
    destruct (existsb includesScopePseudo t); [contradiction Hs; reflexivity |].
    reflexivity.
  - intros He. rewrite (absolutize_group_explicit _ _ He).
    destruct He as (t0 & rest & -> & _ & Hd). simpl.
    apply String.eqb_neq in Hd. rewrite Hd. simpl.
    destruct (String.eqb (type t0) "adjacent" || String.eqb (type t0) "sibling");
      reflexivity.
Qed.

Lemma slot_hasContext (ad : Adapter Elem) (h : Heap) :
  hasContext ad (Some (VSlot (length h))) (h ++ [PLACEHOLDER_ELEMENT]) = true.
Proof.
  assert (E : forall l : list Value,
            (l ++ [PLACEHOLDER_ELEMENT]) !! length l = Some PLACEHOLDER_ELEMENT).
  { induction l as [| v l IH]; [reflexivity | exact IH]. }
  unfold hasContext, elements, Heap in *. rewrite E. reflexivity.
Qed.

(** X16.  When the argument of [:has] contains a traversal, it is
    compiled against the fresh slot, which counts as a present context:
    after [absolutize] every group of the argument contains [:scope],
    which the slot lets resolve to the tested element, and an implicitly
    scoped group is compiled under the flexible descendant token. *)
Theorem has_argument_anchored next token (options : InternalOptions) h :
  existsb containsTraversal token = true ->
  let slot : option Value := Some (VSlot (length h)) in
  let h0 : Heap := h ++ [PLACEHOLDER_ELEMENT] in
  filters_has next token options h =
    match compileToken token (derived options) slot h0 with
    | inl e => inl e
    | inr (q, h1) =>
        inr (if is_falseFunc (func q) then falseFunc
             else if is_trueFunc (func q) then hasChild (adapter options) next
             else has_slot (adapter options) (length h)
                    (wrap (func q) options) next, h1)
    end /\
  hasContext (adapter (derived options)) (effectiveContext (derived options) slot) h0
    = true /\
  (forall g, In g (prepared token (derived options) slot h0) -> ScopeInGroup g) /\
  (forall i t,
     List.map sortRules (List.filter (fun t => Nat.ltb 0 (length t)) token) !! i = Some t ->
     ~ startsExplicit t -> ~ ScopeInGroup t ->
     compiledGroups token (derived options) slot h0 !! i =
     Some (SCOPE_TOKEN :: FLEXIBLE_DESCENDANT_TOKEN :: t)).
Proof.
  intros Htrav slot h0.
  assert (Hslot : effectiveContext (derived options) slot = slot) by reflexivity.
  split; [| split; [| split]].
  - unfold filters_has. rewrite Htrav. unfold bind, alloc, ret. simpl.
    fold slot. fold h0.
    destruct (compileToken token (derived options) slot h0) as [e | [q h1]];
      [reflexivity |].
    destruct (is_falseFunc (func q)); [reflexivity |].
    destruct (is_trueFunc (func q)); reflexivity.
  - rewrite Hslot. apply slot_hasContext.
  - intros g Hin. unfold prepared, absolutize in Hin.
    rewrite Hslot in Hin. unfold slot, h0 in Hin. rewrite slot_hasContext in Hin.
    apply List.in_map_iff in Hin. destruct Hin as (t & <- & _).
    apply some_includesScopePseudo, absolutize_group_anchored.
  - intros i t Ht Hn Hs.
    rewrite compiledGroups_lookup, Hslot. unfold slot at 2, h0.
    rewrite slot_hasContext, Ht. cbn [option_map].
    rewrite (absolutize_group_implicit _ _ Hn).
    rewrite <- some_includesScopePseudo in Hs.
    destruct (existsb includesScopePseudo t); [contradiction Hs; reflexivity |].
    reflexivity.
Qed.

Lemma map_adjustRules_not_array (l : list (list Selector)) :
  List.map (fun rules => fst (adjustRules false rules)) l = l.
Proof.
  induction l as [| rules l IH]; simpl; [reflexivity |].
  rewrite adjustRules_not_array, IH. reflexivity.
Qed.

(** X19.  A context argument that is not an array is treated as the
    one-element array holding it: when [options.context] is absent the
    effective context and the absolutized groups are the same for both,
    and only the array keeps the flexible-descendant rewriting. *)
Theorem single_context_wrapped token (options : InternalOptions) c h :
  context options = None ->
  isArray (Some c) = false ->
  effectiveContext options (Some c) = Some (VArray [c]) /\
  effectiveContext options (Some (VArray [c])) = Some (VArray [c]) /\
  prepared token options (Some c) h = prepared token options (Some (VArray [c])) h /\
  compiledGroups token options (Some c) h = prepared token options (Some (VArray [c])) h.
Proof.
  intros Hc Harr.
  assert (H1 : effectiveContext options (Some c) = Some (VArray [c])).
  { unfold effectiveContext. rewrite Hc, Harr. reflexivity. }
  assert (H2 : effectiveContext options (Some (VArray [c])) = Some (VArray [c])).
  { unfold effectiveContext. rewrite Hc. reflexivity. }
  assert (H3 : prepared token options (Some c) h =
               prepared token options (Some (VArray [c])) h).
  { unfold prepared. rewrite H1, H2. reflexivity. }
  split; [exact H1 | split; [exact H2 | split; [exact H3 |]]].
  unfold compiledGroups. rewrite Harr, <- H3. apply map_adjustRules_not_array.
Qed.

(** X17.  The [map] callback of [compileToken] changes a group in one
    way only: under an array context argument it replaces a descendant
    token that follows a leading [:scope] by the flexible token.  It
    never sets [shouldTestNextSiblings] for a group it rewrites, and the
    group keeps its length. *)
Theorem adjustRules_shape isArrayContext rules :
  length (fst (adjustRules isArrayContext rules)) = length rules /\
  (adjustRules isArrayContext rules = (rules, snd (adjustRules isArrayContext rules)) \/
   isArrayContext = true /\
   exists first second rest,
     rules = first :: second :: rest /\
     isScopePseudo first = true /\ type second = "descendant" /\
     adjustRules isArrayContext rules =
     (first :: FLEXIBLE_DESCENDANT_TOKEN :: rest, false)).
Proof.
  destruct rules as [| first [| second rest]]; simpl; auto.
  destruct (isScopePseudo first) eqn:Hs; simpl; auto.
  destruct isArrayContext; simpl.
  - destruct (String.eqb (type second) "descendant") eqn:Hd; simpl.
    + split; [reflexivity |]. right. split; [reflexivity |].
      exists first, second, rest. apply String.eqb_eq in Hd. auto.
    + destruct (String.eqb (type second) "adjacent" || String.eqb (type second) "sibling");
        auto.
  - destruct (String.eqb (type second) "adjacent" || String.eqb (type second) "sibling");
      auto.
Qed.

(** X18.  [containsTraversal] looks at the types of the nodes of the
    group only, not into the selector lists nested in pseudo-class
    arguments: two groups with the same sequence of types get the same
    answer, so the strict-mode test of [filters.not] does not see a
    traversal inside a nested argument. *)
Theorem containsTraversal_top_level (g g' : list Selector) :
  List.map type g = List.map type g' ->
  containsTraversal g = containsTraversal g'.
Proof.
  unfold containsTraversal. revert g'.
  induction g as [| t g IH]; intros [| t' g'] H; simpl in *; try discriminate H.
  - reflexivity.
  - injection H as Ht Hg. unfold isTraversal at 1 3. rewrite Ht.
    rewrite (IH g' Hg). reflexivity.
Qed.

End Further.

(** * The theorems at concrete inputs *)

(** [> span] without a context. *)
Lemma absolutize_explicit_group_witness :
  [[Traversal child; Sample.span]] !! 0 = Some [Traversal child; Sample.span] /\
  absolutize [[Traversal child; Sample.span]] Sample.options None [] !! 0 =
  Some [SCOPE_TOKEN; Traversal child; Sample.span].
Proof.
  split; [reflexivity |].
  apply (absolutize_explicit_group [[Traversal child; Sample.span]] Sample.options
           None [] 0 [Traversal child; Sample.span] eq_refl).
  exists (Traversal child), [Sample.span].
  split; [reflexivity | split; [reflexivity | discriminate]].
Defined.

(** C1 fails as stated: the group [> span] starts with the child
    traversal, and [absolutize] prepends [:scope] to it. *)
Lemma absolutize_explicit_group_changed :
  startsExplicit [Traversal child; Sample.span] /\
  absolutize [[Traversal child; Sample.span]] Sample.options None [] =
    [[PseudoSelector "scope" DataNull; Traversal child; Sample.span]] /\
  absolutize [[Traversal child; Sample.span]] Sample.options None [] <>
    [[Traversal child; Sample.span]].
Proof.
  split; [| split].
  - exists (Traversal child), [Sample.span].
    split; [reflexivity | split; [reflexivity | discriminate]].
  - reflexivity.
  - discriminate.
Qed.

(** [span] with the context [[div]]. *)
Lemma absolutize_implicit_group_witness :
  [[Sample.span]] !! 0 = Some [Sample.span] /\
  ~ startsExplicit [Sample.span] /\
  absolutize [[Sample.span]] Sample.options (Some (VArray [VElem 1])) [] !! 0 =
  Some [SCOPE_TOKEN; DESCENDANT_TOKEN; Sample.span].
Proof.
  assert (Hn : ~ startsExplicit [Sample.span]).
  { intros (t0 & rest & E & Ht & _). injection E as <- _. discriminate Ht. }
  split; [reflexivity | split; [exact Hn |]].
  apply (absolutize_implicit_group [[Sample.span]] Sample.options
           (Some (VArray [VElem 1])) [] 0 [Sample.span] eq_refl Hn).
  - reflexivity.
  - intros (t & [<- | []] & Hs). inversion Hs.
Defined.

(** [:scope + span], compiled without the wrapper. *)
Lemma shouldTestNextSiblings_witness :
  compileUnsafe ":scope + span" Sample.options None [] = inr (Sample.nextSpan, []) /\
  exists token b,
    parse ":scope + span" Sample.options = inr token /\
    shouldTestNextSiblings Sample.nextSpan = Some b /\
    (b = true <->
     exists rules, In rules (prepared token Sample.options None []) /\
                   siblingAfterScope rules).
Proof.
  assert (H : compileUnsafe ":scope + span" Sample.options None [] =
              inr (Sample.nextSpan, []))
    by (vm_compute; reflexivity).
  split; [exact H |].
  exact (proj1 (shouldTestNextSiblings_spec ":scope + span" Sample.options None []
                  Sample.nextSpan []) H).
Defined.

(** C2 fails as stated: for [:scope + span] the second node, right
    after the leading [:scope], is the adjacent traversal, yet the
    function that [compile] returns has no [shouldTestNextSiblings]. *)
Lemma compile_drops_shouldTestNextSiblings :
  exists q h',
    compile ":scope + span" Sample.options None [] = inr (q, h') /\
    shouldTestNextSiblings q = None /\
    exists rules,
      In rules
        (prepared [[Sample.scope; Traversal adjacent; Sample.span]]
           Sample.options None []) /\
      siblingAfterScope rules.
Proof.
  eexists. eexists. split; [vm_compute; reflexivity |].
  split; [reflexivity |].
  exists [Sample.scope; Traversal adjacent; Sample.span].
  split; [left; reflexivity |].
  exists Sample.scope, (Traversal adjacent), [Sample.span].
  split; [reflexivity | split; [reflexivity | left; reflexivity]].
Qed.

(** [:not(span)] under two option records that differ in [rootFunc] and
    [context]. *)
Lemma filters_not_options_witness :
  adapter Sample.contextual = adapter Sample.options /\
  truthy (xmlMode Sample.contextual) = truthy (xmlMode Sample.options) /\
  truthy (strict Sample.contextual) = truthy (strict Sample.options) /\
  filters_not trueFunc [[Sample.span]] Sample.contextual None [] =
  filters_not trueFunc [[Sample.span]] Sample.options None [].
Proof.
  repeat (split; [reflexivity |]).
  apply (filters_not_options trueFunc [[Sample.span]] Sample.options
           Sample.contextual None []);
    reflexivity.
Defined.

(** C3 fails as stated: the context argument reaches the nested
    compilation.  With the context [[div]], [:not(span)] becomes
    [:not(:scope span)] and holds of the span under html; without a
    context it does not. *)
Lemma filters_not_keeps_context :
  exists q1 q2 h1 h2,
    filters_not trueFunc [[Sample.span]] Sample.options (Some (VArray [VElem 1])) [] =
      inr (q1, h1) /\
    filters_not trueFunc [[Sample.span]] Sample.options None [] = inr (q2, h2) /\
    q1 <> q2 /\
    fst (call q1 2 h1) = true /\
    fst (call q2 2 h2) = false.
Proof.
  do 4 eexists. split; [vm_compute; reflexivity |].
  split; [vm_compute; reflexivity |].
  split; [discriminate |].
  split; vm_compute; reflexivity.
Qed.

(** [:not(div > span)] with and without [strict]. *)
Lemma filters_not_strict_check_witness :
  filters_not trueFunc [[Sample.div; Traversal child; Sample.span]]
    Sample.strictOptions None [] = inl StrictModeViolation /\
  (exists r, filters_not trueFunc [[Sample.div; Traversal child; Sample.span]]
               Sample.options None [] = inr r).
Proof.
  split.
  - apply (proj1 (filters_not_strict_check trueFunc
                    [[Sample.div; Traversal child; Sample.span]]
                    Sample.strictOptions None [])).
    + reflexivity.
    + right. exists [Sample.div; Traversal child; Sample.span], (Traversal child).
      split; [left; reflexivity |].
      split; [right; left; reflexivity | vm_compute; reflexivity].
  - apply (proj2 (proj2 (filters_not_strict_check trueFunc
                           [[Sample.div; Traversal child; Sample.span]]
                           Sample.options None [])
                    (or_introl eq_refl))).
    eexists. vm_compute. reflexivity.
Defined.

(** C4 fails as stated: the argument of [:not(:not(div > span))] is one
    group with no traversal among its nodes, yet compiling it under
    [strict] throws the strict-mode error, raised by the inner [:not],
    which receives the derived options with [strict] set. *)
Lemma filters_not_nested_strict :
  length [[Nested.notChild]] = 1 /\
  existsb (@containsTraversal _ _ (Nested.imports 1)) [[Nested.notChild]] = false /\
  @filters_not _ _ (Nested.imports 1) trueFunc [[Nested.notChild]]
    Sample.strictOptions None [] = inl StrictModeViolation.
Proof.
  split; [reflexivity |].
  split; vm_compute; reflexivity.
Qed.

(** [*]: the chain of the only group compiles to [trueFunc]. *)
Lemma trueFunc_identity_witness :
  (exists q, compileToken [[UniversalSelector]] Sample.options None [] = inr (q, []) /\
             func q = trueFunc) /\
  (forall selector, parse selector Sample.options = inr [[UniversalSelector]] ->
     exists q next,
       compileUnsafe selector Sample.options None [] = inr (next, []) /\
       func next = trueFunc /\
       compile selector Sample.options None [] = inr (q, []) /\
       func q = base (adapter Sample.options) trueFunc /\
       func q <> trueFunc).
Proof.
  apply (trueFunc_identity [[UniversalSelector]] Sample.options None [] [trueFunc] []).
  - vm_compute. reflexivity.
  - left. reflexivity.
Defined.

(** C5 fails as stated: [*] compiles to [trueFunc], and [compile]
    hands back a closure around it. *)
Lemma compile_never_sentinel :
  exists q next h',
    compileUnsafe "*" Sample.options None [] = inr (next, h') /\
    func next = trueFunc /\
    compile "*" Sample.options None [] = inr (q, h') /\
    func q <> trueFunc.
Proof.
  do 3 eexists. split; [vm_compute; reflexivity |].
  split; [reflexivity |]. split; [vm_compute; reflexivity |].
  discriminate.
Qed.

(** Two leaf closures. *)
Lemma reduceRules_witness :
  reduceRules Sample.isSpan Sample.isDiv = combine Sample.isSpan Sample.isDiv /\
  call (reduceRules Sample.isSpan Sample.isDiv) 1 [] = (true, []) /\
  call (reduceRules Sample.isSpan Sample.isDiv) 2 [] = (true, []) /\
  call (reduceRules Sample.isSpan Sample.isDiv) 4 [] = (false, []).
Proof.
  destruct (proj2 (proj2 (proj2 (reduceRules_spec Sample.isSpan Sample.isDiv))))
    as [Hc Hcall]; try discriminate.
  split; [exact Hc |]. rewrite !Hcall. repeat split; vm_compute; reflexivity.
Defined.

(** An attribute that must start with the empty string, followed by
    [::before]: the attribute builder returns [falseFunc], and the
    pseudo-element, for which no builder is registered, is never looked
    up. *)
Lemma compileRules_witness :
  compileRules [Sample.never] Sample.options None [] = inr (falseFunc, []) /\
  compileRules ([Sample.never] ++ [PseudoElement "before"]) Sample.options None [] =
  inr (falseFunc, []).
Proof.
  assert (H : compileRules [Sample.never] Sample.options None [] = inr (falseFunc, []))
    by (vm_compute; reflexivity).
  split; [exact H |].
  exact (proj2 (proj2 (proj2 (compileRules_spec Sample.options None)))
           Sample.builders [Sample.never] [PseudoElement "before"] [] []
           (fun _ _ => eq_refl) H).
Defined.

(** [:has(> span)] on the sample tree. *)
Lemma filters_has_witness :
  compileToken [[Traversal child; Sample.span]] (derived Sample.options)
    (Some (VSlot 0)) [VPlaceholder] = inr (Sample.childSpan, [VPlaceholder]) /\
  exists result,
    filters_has trueFunc [[Traversal child; Sample.span]] Sample.options [] =
      inr (result, [VPlaceholder]) /\
    List.map (fun elem => fst (call result elem [VPlaceholder])) [0; 1; 2; 3; 4] =
      [true; true; false; false; false].
Proof.
  assert (H : compileToken [[Traversal child; Sample.span]] (derived Sample.options)
                (Some (VSlot 0)) [VPlaceholder] =
              inr (Sample.childSpan, [VPlaceholder]))
    by (vm_compute; reflexivity).
  split; [exact H |].
  destruct (filters_has_spec trueFunc [[Traversal child; Sample.span]] Sample.options
              [] Sample.childSpan [VPlaceholder] H)
    as [_ (result & Hres & _ & _ & Hcall)].
  exists result. split; [exact Hres |].
  simpl List.map. rewrite !Hcall by discriminate.
  vm_compute. reflexivity.
Defined.

(** [:scope span] with the context [[div]]: given in [options.context]
    only, the descendant token stays; given as the argument, it becomes
    the flexible token. *)
Lemma flexible_descendant_witness :
  compiledGroups [[Sample.scope; Traversal descendant; Sample.span]]
    Sample.contextual None [] =
    [[Sample.scope; Traversal descendant; Sample.span]] /\
  compiledGroups [[Sample.scope; Traversal descendant; Sample.span]]
    Sample.options (Some (VArray [VElem 1])) [] !! 0 =
    Some [Sample.scope; FLEXIBLE_DESCENDANT_TOKEN; Sample.span].
Proof.
  split.
  - rewrite (proj1 (proj2 (flexible_descendant_by_argument
                             [[Sample.scope; Traversal descendant; Sample.span]]
                             Sample.contextual None []))).
    reflexivity.
  - apply (proj2 (proj2 (proj2 (flexible_descendant_by_argument
                                  [[Sample.scope; Traversal descendant; Sample.span]]
                                  Sample.options (Some (VArray [VElem 1])) [])))
             eq_refl 0 Sample.scope (Traversal descendant) [Sample.span]);
      reflexivity.
Defined.

(** * The further properties at concrete inputs *)

(** [span, div]. *)
Lemma compileToken_some_witness :
  exists q,
    compileToken [[Sample.span]; [Sample.div]] Sample.options None [] = inr (q, []) /\
    List.map (fun elem => fst (call (func q) elem [])) [0; 1; 2; 3; 4] =
      [false; true; true; true; false].
Proof.
  assert (H : mapM (fun rules => compileRules rules Sample.options
                                   (effectiveContext Sample.options None))
                (compiledGroups [[Sample.span]; [Sample.div]] Sample.options None [])
                [] = inr ([Sample.isSpan; Sample.isDiv], []))
    by (vm_compute; reflexivity).
  destruct (compileToken_some [[Sample.span]; [Sample.div]] Sample.options None []
              [Sample.isSpan; Sample.isDiv] [] H) as (q & Hq & Hcall).
  exists q. split; [exact Hq |].
  simpl List.map. rewrite !Hcall. vm_compute. reflexivity.
Defined.

(** [*, span]: the first group compiles to [trueFunc]. *)
Lemma compileToken_sentinels_witness :
  exists q,
    compileToken [[UniversalSelector]; [Sample.span]] Sample.options None [] =
      inr (q, []) /\
    func q = trueFunc.
Proof.
  assert (H : mapM (fun rules => compileRules rules Sample.options
                                   (effectiveContext Sample.options None))
                (compiledGroups [[UniversalSelector]; [Sample.span]] Sample.options
                   None [])
                [] = inr ([trueFunc; Sample.isSpan], []))
    by (vm_compute; reflexivity).
  destruct (compileToken_sentinels [[UniversalSelector]; [Sample.span]] Sample.options
              None [] [trueFunc; Sample.isSpan] [] H)
    as (q & Hq & Htrue & _).
  exists q. split; [exact Hq |]. apply Htrue. left. reflexivity.
Defined.

(** A list of two empty groups. *)
Lemma compileToken_empty_groups_witness :
  compileToken [[]; []] Sample.options (Some (VArray [VElem 1])) [VPlaceholder] =
  inr ({| func := falseFunc; shouldTestNextSiblings := Some false |}, [VPlaceholder]).
Proof.
  apply (proj2 (proj2 (compileToken_empty_groups [[]; []] Sample.options
                         (Some (VArray [VElem 1])) [VPlaceholder]))).
  intros g [<- | [<- | []]]; reflexivity.
Defined.

(** [*, ::before]: the second group has no builder. *)
Lemma compileToken_group_fails_witness :
  mapM (fun rules => compileRules rules Sample.options None) [[UniversalSelector]] [] =
    inr ([trueFunc], []) /\
  compileToken [[UniversalSelector]; [PseudoElement "before"]] Sample.options None [] =
    inl (UnsupportedSelectorKind "pseudo-element").
Proof.
  split; [vm_compute; reflexivity |].
  apply (compileToken_group_fails [[UniversalSelector]; [PseudoElement "before"]]
           Sample.options None [] [[UniversalSelector]] [PseudoElement "before"] []
           [trueFunc] []); vm_compute; reflexivity.
Defined.

(** [span::before div]. *)
Lemma compileRules_unsupported_witness :
  compileRules ([Sample.span] ++ PseudoElement "before" :: [Sample.div]) Sample.options
    None [] =
  inl (UnsupportedSelectorKind "pseudo-element").
Proof.
  apply (compileRules_unsupported [Sample.span] (PseudoElement "before") [Sample.div]
           Sample.options None [] Sample.isSpan []).
  - vm_compute. reflexivity.
  - discriminate.
  - vm_compute. reflexivity.
Defined.

(** [> span, span] with the context [[div]]. *)
Lemma absolutize_prepends_witness :
  exists front,
    absolutize [[Traversal child; Sample.span]; [Sample.span]] Sample.options
      (Some (VArray [VElem 1])) [] !! 1 = Some (front ++ [Sample.span]) /\
    (front = [] \/ front = [SCOPE_TOKEN] \/ front = [SCOPE_TOKEN; DESCENDANT_TOKEN]).
Proof.
  apply (proj2 (absolutize_prepends [[Traversal child; Sample.span]; [Sample.span]]
                  Sample.options (Some (VArray [VElem 1])) []) 1 [Sample.span]).
  reflexivity.
Defined.

Lemma absolutize_idempotent_witness :
  isTraversal SCOPE_TOKEN = false /\
  absolutize
    (absolutize [[Traversal child; Sample.span]; [Sample.span]] Sample.options
       (Some (VArray [VElem 1])) [])
    Sample.options (Some (VArray [VElem 1])) [] =
  absolutize [[Traversal child; Sample.span]; [Sample.span]] Sample.options
    (Some (VArray [VElem 1])) [].
Proof.
  assert (H : isTraversal SCOPE_TOKEN = false) by (vm_compute; reflexivity).
  split; [exact H |].
  apply (absolutize_idempotent [[Traversal child; Sample.span]; [Sample.span]]
           Sample.options (Some (VArray [VElem 1])) [] H).
Defined.

Lemma absolutize_anchors_witness :
  hasContext (adapter Sample.options) (Some (VArray [VElem 1])) [] = true /\
  ScopeInGroup [SCOPE_TOKEN; DESCENDANT_TOKEN; Sample.span].
Proof.
  split; [reflexivity |].
  apply (absolutize_anchors [[Sample.span]] Sample.options (Some (VArray [VElem 1])) []
           [SCOPE_TOKEN; DESCENDANT_TOKEN; Sample.span]).
  - reflexivity.
  - left. reflexivity.
Defined.

(** [:not(span)] on the sample tree. *)
Lemma filters_not_sound_witness :
  exists result,
    filters_not trueFunc [[Sample.span]] Sample.options None [] = inr (result, []) /\
    List.map (fun elem => fst (call result elem [])) [0; 1; 2; 3; 4] =
      [true; true; false; false; true].
Proof.
  assert (H : compileToken [[Sample.span]] (derived Sample.options) None [] =
              inr ({| func := Sample.isSpan; shouldTestNextSiblings := Some false |}, []))
    by (vm_compute; reflexivity).
  destruct (filters_not_sound trueFunc [[Sample.span]] Sample.options None [] _ []
              eq_refl H) as (result & Hres & _ & _ & Hcall).
  exists result. split; [exact Hres |].
  simpl List.map. rewrite !Hcall. vm_compute. reflexivity.
Defined.

(** [:matches(span)] after [div]: the chain goes on from [isDiv]. *)
Lemma filters_matches_chains_witness :
  filters_matches Sample.isDiv [[Sample.span]] Sample.options None [] =
  inr (extern (Sample.Leaf Sample.span None) [Sample.isDiv], []).
Proof.
  rewrite (proj2 (filters_matches_chains Sample.isDiv [[Sample.span]] Sample.options
                    None []) [Sample.span]) by (vm_compute; reflexivity).
  vm_compute. reflexivity.
Defined.

Lemma recursive_pseudos_empty_witness :
  filters_not Sample.isDiv [[]] Sample.strictOptions None [] = inr (Sample.isDiv, []) /\
  filters_has Sample.isDiv [[]] Sample.strictOptions [] = inr (falseFunc, []) /\
  filters_matches Sample.isDiv [[]] Sample.strictOptions None [] = inr (falseFunc, []).
Proof.
  destruct (recursive_pseudos_empty Sample.isDiv [[]] Sample.strictOptions None [])
    as (Hnot & Hhas & Hmatches).
  - intros g [<- | []]. reflexivity.
  - split; [apply Hnot; reflexivity | split; [exact Hhas | exact Hmatches]].
Defined.

(** [:has(> ::before)] under [strict]: the failure is the nested one. *)
Lemma has_matches_errors_witness :
  filters_has trueFunc [[Traversal child; PseudoElement "before"]]
    Sample.strictOptions [] =
  inl (UnsupportedSelectorKind "pseudo-element").
Proof.
  apply (proj1 (has_matches_errors trueFunc [[Traversal child; PseudoElement "before"]]
                  Sample.strictOptions None []
                  (UnsupportedSelectorKind "pseudo-element"))).
  vm_compute. reflexivity.
Defined.

(** [*]: node 7 is no tag of the sample tree. *)
Lemma compile_guards_witness :
  exists q,
    compile "*" Sample.options None [] = inr (q, []) /\
    call (func q) 7 [] = (false, []) /\
    call (func q) 2 [] = (true, []).
Proof.
  assert (H : compile "*" Sample.options None [] =
              inr ({| func := base Sample.treeAdapter trueFunc;
                      shouldTestNextSiblings := None |}, []))
    by (vm_compute; reflexivity).
  eexists. split; [exact H |].
  destruct (compile_guards "*" Sample.options None [] _ [] H) as (next & Hnext & Hg).
  split.
  - apply (proj1 (Hg 7 [])). reflexivity.
  - reflexivity.
Defined.

Lemma options_context_overrides_witness :
  compileToken [[Sample.span]] Sample.contextual None [] =
  compileToken [[Sample.span]] Sample.contextual (Some (VElem 2)) [].
Proof.
  apply (options_context_overrides [[Sample.span]] Sample.contextual
           (VArray [VElem 1]) None (Some (VElem 2)) []); reflexivity.
Defined.

(** [span] with the array [[div]] as context argument. *)
Lemma array_context_groups_witness :
  compiledGroups [[Sample.span]] Sample.options (Some (VArray [VElem 1])) [] !! 0 =
  Some [SCOPE_TOKEN; FLEXIBLE_DESCENDANT_TOKEN; Sample.span].
Proof.
  assert (Hc : hasContext (adapter Sample.options)
                 (effectiveContext Sample.options (Some (VArray [VElem 1]))) [] = true)
    by (vm_compute; reflexivity).
  assert (Ht : List.map sortRules
                 (List.filter (fun t => Nat.ltb 0 (length t)) [[Sample.span]]) !! 0 =
               Some [Sample.span])
    by (vm_compute; reflexivity).
  apply (proj1 (array_context_groups [[Sample.span]] Sample.options
                  (Some (VArray [VElem 1])) [] 0 [Sample.span] eq_refl Hc Ht)).
  - intros (t0 & rest & E & Htr & _). injection E as <- _. discriminate Htr.
  - intros (t & [<- | []] & Hs). inversion Hs.
Defined.

(** [:has(div span)]. *)
Lemma has_argument_anchored_witness :
  existsb containsTraversal [[Sample.div; Traversal descendant; Sample.span]] = true /\
  compiledGroups [[Sample.div; Traversal descendant; Sample.span]]
    (derived Sample.options) (Some (VSlot 0)) [VPlaceholder] !! 0 =
  Some [SCOPE_TOKEN; FLEXIBLE_DESCENDANT_TOKEN;
        Sample.div; Traversal descendant; Sample.span].
Proof.
  assert (H : existsb containsTraversal
                [[Sample.div; Traversal descendant; Sample.span]] = true)
    by (vm_compute; reflexivity).
  split; [exact H |].
  assert (Ht : List.map sortRules
                 (List.filter (fun t => Nat.ltb 0 (length t))
                    [[Sample.div; Traversal descendant; Sample.span]]) !! 0 =
               Some [Sample.div; Traversal descendant; Sample.span])
    by (vm_compute; reflexivity).
  apply (proj2 (proj2 (proj2 (has_argument_anchored trueFunc
                                [[Sample.div; Traversal descendant; Sample.span]]
                                Sample.options [] H)))
           0 [Sample.div; Traversal descendant; Sample.span] Ht).
  - intros (t0 & rest & E & Htr & _). injection E as <- _. discriminate Htr.
  - intros (t & [<- | [<- | [<- | []]]] & Hs); inversion Hs.
Defined.

(** A traversal inside the argument of [:not] is not seen. *)
Lemma containsTraversal_top_level_witness :
  containsTraversal
    [PseudoSelector "not" (DataSelectors [[Traversal child; Sample.span]])] = false.
Proof.
  rewrite (containsTraversal_top_level
             [PseudoSelector "not" (DataSelectors [[Traversal child; Sample.span]])]
             [PseudoSelector "not" DataNull] eq_refl).
  vm_compute. reflexivity.
Defined.

(** The element [div] and the array [[div]] as context argument. *)
Lemma single_context_wrapped_witness :
  prepared [[Sample.span]] Sample.options (Some (VElem 1)) [] =
    prepared [[Sample.span]] Sample.options (Some (VArray [VElem 1])) [] /\
  compiledGroups [[Sample.span]] Sample.options (Some (VElem 1)) [] =
    [[SCOPE_TOKEN; DESCENDANT_TOKEN; Sample.span]].
Proof.
  destruct (single_context_wrapped [[Sample.span]] Sample.options (VElem 1) []
              eq_refl eq_refl) as (_ & _ & Hp & Hc).
  split; [exact Hp |]. rewrite Hc. reflexivity.
Defined.
